(** * Lattice: the delegation core of the agent mesh

    A shallow embedding of the Go packages [core] (execution context),
    [mesh] (cycle detector, balancers, injector) and [registry] (the local
    in-memory registry), with the properties of the delegation core proved
    over it.

    Conventions of the embedding:
    - a Go [int] is a [Z] in the signed 64-bit range and a [uint64] a [Z] in
      the unsigned one, with the wrap-around of [+] written out;
    - a Go slice that is stored and shared ([[]string] kept in a context) is a
      slice header pointing into a heap of backing arrays, so that aliasing
      between contexts is visible; slices that stay local to one call are
      plain lists;
    - a Go [map] is a [gmap]; a [range] over it visits the entries in an
      order picked by the runtime, which is an explicit argument here;
    - a run-time panic is the [Panic] outcome. *)

From Stdlib Require Import ZArith Lia.
From stdpp Require Import base list strings gmap.

Local Open Scope Z_scope.

(** ** Machine integers *)

Module GoInt.

Definition int_min : Z := - 2 ^ 63.
Definition int_max : Z := 2 ^ 63 - 1.
Definition uint64_mod : Z := 2 ^ 64.

(** A value of Go type [int] (64 bits). *)
Definition is_int (z : Z) : Prop := int_min <= z <= int_max.

(** A value of Go type [uint64]. *)
Definition is_uint64 (z : Z) : Prop := 0 <= z < uint64_mod.

(** Two's complement wrap-around of a signed 64-bit result. *)
Definition wrap_int (z : Z) : Z := (z - int_min) mod uint64_mod + int_min.

(** Wrap-around of an unsigned 64-bit result. *)
Definition wrap_uint64 (z : Z) : Z := z mod uint64_mod.

(** Go's [x + y] on [int]. *)
Definition int_add (x y : Z) : Z := wrap_int (x + y).

(** Go's [x + y] and [x - y] on [uint64]. *)
Definition uint64_add (x y : Z) : Z := wrap_uint64 (x + y).
Definition uint64_sub (x y : Z) : Z := wrap_uint64 (x - y).

End GoInt.

(** ** Outcomes of Go code that may panic *)

Inductive outcome (A : Type) : Type :=
| Ok (a : A)
| Panic.
Arguments Ok {A} a.
Arguments Panic {A}.

Definition outcome_map {A B} (f : A -> B) (o : outcome A) : outcome B :=
  match o with
  | Ok a => Ok (f a)
  | Panic => Panic
  end.

(** ** Memory: backing arrays of [[]string] slices

    The heap is the sequence of backing arrays allocated so far; an address is
    an index into it. The code only ever holds a [nil] slice or a slice made
    by [make] that covers its whole array, so a header is an address and a
    length. *)

Module Mem.

Abbreviation addr := nat.
Abbreviation heap := (list (list string)).

Inductive slice : Type :=
| nil_slice
| Slice (a : addr) (n : nat).

(** [len(s)] *)
Definition len (s : slice) : nat :=
  match s with
  | nil_slice => 0%nat
  | Slice _ n => n
  end.

(** The elements a [range] over [s] sees in heap [h]. *)
Definition elems (h : heap) (s : slice) : list string :=
  match s with
  | nil_slice => []
  | Slice a n => take n (default [] (h !! a))
  end.

(** Code running against the heap. *)
Definition M (A : Type) : Type := heap -> outcome (A * heap).

Definition ret {A} (a : A) : M A := fun h => Ok (a, h).

Definition bind {A B} (m : M A) (k : A -> M B) : M B :=
  fun h =>
    match m h with
    | Ok (a, h') => k a h'
    | Panic => Panic
    end.

(** [make([]string, n)]: a fresh array of [n] empty strings. *)
Definition make (n : nat) : M slice :=
  fun h => Ok (Slice (length h) n, h ++ [replicate n EmptyString]).

(** [copy(dst, src)]: copies [min(len(dst), len(src))] elements and
    returns that number. *)
Definition copy (dst src : slice) : M nat :=
  fun h =>
    let k := (len dst `min` len src)%nat in
    match dst with
    | nil_slice => Ok (k, h)
    | Slice a _ =>
        Ok (k, alter (fun arr => take k (elems h src) ++ drop k arr) a h)
    end.

(** [s[i] = v]: panics when [i] is out of range. *)
Definition store (s : slice) (i : nat) (v : string) : M unit :=
  fun h =>
    match s with
    | nil_slice => Panic
    | Slice a n =>
        if decide (i < n)%nat
        then Ok (tt, alter (fun arr => <[i := v]> arr) a h)
        else Panic
    end.

(** A header is valid in a heap when its array is allocated there and has
    the header's length: Go's memory safety guarantees it of every slice a
    program holds. *)
Definition slice_valid (h : heap) (s : slice) : Prop :=
  match s with
  | nil_slice => True
  | Slice a n => exists arr, h !! a = Some arr /\ length arr = n
  end.

End Mem.

#[global] Instance M_ret : MRet Mem.M := @Mem.ret.
#[global] Instance M_bind : MBind Mem.M := fun A B k m => Mem.bind m k.

(** Go's [l[i]] on a slice held as a list: panics out of range. *)
Definition index {A} (l : list A) (i : Z) : outcome A :=
  if decide (0 <= i < Z.of_nat (length l))
  then match l !! Z.to_nat i with
       | Some a => Ok a
       | None => Panic
       end
  else Panic.

(** ** Package [core]: capabilities, agents, the execution context *)

Module core.

(** [type Capability string] *)
Definition Capability := string.

(** The part of the [Agent] interface the delegation core reads. [Run] and
    the other methods belong to the agent's own execution loop. *)
Record Agent : Type := mkAgent {
  ID : string;
  Name : string;
  Provides : list Capability;
  Needs : list Capability
}.

#[global] Instance Agent_eq_dec : EqDecision Agent.
Proof. solve_decision. Defined.

(** The private context keys. *)
Inductive contextKey : Type :=
| callChainKey
| hopCountKey
| traceIDKey
| remainingTimeoutKey.

#[global] Instance contextKey_eq_dec : EqDecision contextKey.
Proof. solve_decision. Defined.

(** The dynamically typed values stored under those keys. *)
Inductive value : Type :=
| VStrings (s : Mem.slice)
| VInt (n : Z)
| VString (s : string)
| VInt64 (n : Z).

(** [context.Context]: [context.Background()] extended by
    [context.WithValue], each extension a new node over its parent. *)
Inductive Context : Type :=
| Background
| WithValue (parent : Context) (key : contextKey) (val : value).

(** [ctx.Value(key)]: the innermost binding of [key]. *)
Fixpoint Value (ctx : Context) (key : contextKey) : option value :=
  match ctx with
  | Background => None
  | WithValue parent k v =>
      if decide (k = key) then Some v else Value parent key
  end.

Definition CallChain (ctx : Context) : Mem.slice :=
  match Value ctx callChainKey with
  | Some (VStrings chain) => chain
  | _ => Mem.nil_slice
  end.

Definition WithCallChain (ctx : Context) (agentID : string)
  : Mem.M Context :=
  let chain := CallChain ctx in
  newChain ← Mem.make (Mem.len chain + 1);
  _ ← Mem.copy newChain chain;
  _ ← Mem.store newChain (Mem.len chain) agentID;
  mret (WithValue ctx callChainKey (VStrings newChain)).

(** The loop of [InCallChain] over the elements of the chain. *)
Fixpoint InCallChain_range (chain : list string) (agentID : string) : bool :=
  match chain with
  | [] => false
  | id :: rest =>
      if decide (id = agentID) then true else InCallChain_range rest agentID
  end.

Definition InCallChain (ctx : Context) (agentID : string) (h : Mem.heap)
  : bool :=
  InCallChain_range (Mem.elems h (CallChain ctx)) agentID.

Definition HopCount (ctx : Context) : Z :=
  match Value ctx hopCountKey with
  | Some (VInt count) => count
  | _ => 0
  end.

Definition WithHopCount (ctx : Context) : Context :=
  WithValue ctx hopCountKey (VInt (GoInt.int_add (HopCount ctx) 1)).

Definition TraceID (ctx : Context) : string :=
  match Value ctx traceIDKey with
  | Some (VString id) => id
  | _ => EmptyString
  end.

Definition WithTraceID (ctx : Context) (traceID : string) : Context :=
  WithValue ctx traceIDKey (VString traceID).

(** [RemainingTimeout] and [WithRemainingTimeout]: an [int64] under its own
    key. *)
Definition RemainingTimeout (ctx : Context) : Z :=
  match Value ctx remainingTimeoutKey with
  | Some (VInt64 timeout) => timeout
  | _ => 0
  end.

Definition WithRemainingTimeout (ctx : Context) (timeoutMs : Z) : Context :=
  WithValue ctx remainingTimeoutKey (VInt64 timeoutMs).

(** [ToolCall]: a request to execute a tool; [Params] is the raw JSON text. *)
Record ToolCall : Type := mkToolCall {
  CallID : string;
  CallName : string;
  Params : string
}.

End core.

(** ** Package [registry]: the local in-memory registry *)

Module registry.
Import core.

Inductive error : Type :=
| ErrAgentNotFound.

(** [Local]: the map from agent ID to agent (the mutex is left out: the
    operations are modelled one at a time). *)
Record Local : Type := mkLocal { agents : gmap string Agent }.

Definition NewLocal : Local := {| agents := ∅ |}.

Definition Register (r : Local) (agent : Agent) : Local * option error :=
  ({| agents := <[ID agent := agent]> (agents r) |}, None).

Definition Deregister (r : Local) (agentID : string) : Local * option error :=
  ({| agents := delete agentID (agents r) |}, None).

Definition Get (r : Local) (agentID : string) : option Agent * option error :=
  match agents r !! agentID with
  | Some agent => (Some agent, None)
  | None => (None, Some ErrAgentNotFound)
  end.

(** A [range] over a Go map visits every entry once, in an order the
    runtime picks anew for each loop. The pick is a rearrangement of the
    entries, given to the loop as an argument. *)
Definition range_order : Type := list (string * Agent) -> list (string * Agent).

Definition range_order_ok (ro : range_order) : Prop :=
  forall entries, ro entries ≡ₚ entries.

(** The inner loop of [FindByCapability], with its [break]. *)
Fixpoint Provides_range (provides : list Capability) (cap : Capability)
  : bool :=
  match provides with
  | [] => false
  | provided :: rest =>
      if decide (provided = cap) then true else Provides_range rest cap
  end.

(** The outer loop, over the entries in the order they are visited. *)
Fixpoint FindByCapability_range (entries : list (string * Agent))
    (cap : Capability) (result : list Agent) : list Agent :=
  match entries with
  | [] => result
  | (_, agent) :: rest =>
      FindByCapability_range rest cap
        (if Provides_range (Provides agent) cap
         then result ++ [agent] else result)
  end.

Definition FindByCapability (r : Local) (ro : range_order)
    (cap : Capability) : list Agent * option error :=
  (FindByCapability_range (ro (map_to_list (agents r))) cap [], None).

Fixpoint List_range (entries : list (string * Agent)) (result : list Agent)
  : list Agent :=
  match entries with
  | [] => result
  | (_, agent) :: rest => List_range rest (result ++ [agent])
  end.

Definition List (r : Local) (ro : range_order) : list Agent * option error :=
  (List_range (ro (map_to_list (agents r))) [], None).

End registry.

(** ** Package [agent]: the tool list of an agent

    The agent holds its tools as a list of [core.Tool] values and looks them
    up by name. A tool is seen here through its [Name] and [Execute]
    methods; [Execute] runs against a state of type [St] and returns Go's
    pair of a string and an error ([None] for [nil]). *)

Module agent.
Import core.

Section Tools.
Context {T St Err : Type}.
Variable ToolName : T -> string.
Variable ToolExecute :
  T -> Context -> string -> St -> outcome ((string * option Err) * St).

(** The error of [executeTool]: the one the tool returned, handed on
    unchanged, or ["tool not found: <name>"]. *)
Inductive exec_error : Type :=
| ToolError (err : Err)
| ErrToolNotFound (name : string).

(** [AddTools]: [a.tools = append(a.tools, tools...)], on the tool list. *)
Definition AddTools (tools : list T) (new : list T) : list T := tools ++ new.

(** The loop of [executeTool] over [a.tools]. *)
Fixpoint executeTool (tools : list T) (ctx : Context) (call : ToolCall)
    (st : St) : outcome ((string * option exec_error) * St) :=
  match tools with
  | [] => Ok ((EmptyString, Some (ErrToolNotFound (CallName call))), st)
  | tool :: rest =>
      if decide (ToolName tool = CallName call)
      then
        match ToolExecute tool ctx (Params call) st with
        | Ok ((out, err), st') => Ok ((out, ToolError <$> err), st')
        | Panic => Panic
        end
      else executeTool rest ctx call st
  end.

End Tools.

End agent.

(** ** Package [mesh]: cycle detector, balancers, injector *)

Module mesh.
Import core.

Definition DefaultMaxHops : Z := 10.

Inductive error : Type :=
| ErrCycleDetected
| ErrMaxHopsExceeded
| ErrFindProviders (need : Capability) (err : registry.error).

Record CycleDetector : Type := mkCycleDetector { maxHops : Z }.

Definition NewCycleDetector (maxHops : Z) : CycleDetector :=
  let maxHops := if decide (maxHops <= 0) then DefaultMaxHops else maxHops in
  {| maxHops := maxHops |}.

(** [None] is the [nil] error. *)
Definition Check (cd : CycleDetector) (ctx : Context) (agentID : string)
    (h : Mem.heap) : option error :=
  if InCallChain ctx agentID h then Some ErrCycleDetected
  else if decide (HopCount ctx >= maxHops cd) then Some ErrMaxHopsExceeded
  else None.

Definition PrepareContext (cd : CycleDetector) (ctx : Context)
    (agentID : string) : Mem.M Context :=
  ctx ← WithCallChain ctx agentID;
  mret (WithHopCount ctx).

Definition MaxHops (cd : CycleDetector) : Z := maxHops cd.

(** *** Balancers

    [Select] returns the chosen agent ([None] for Go's [nil]) or panics,
    together with the balancer's state after the call. *)
Class Balancer (B : Type) : Type :=
  Select : B -> list Agent -> outcome (option Agent) * B.

Record RoundRobinBalancer : Type := mkRoundRobin { counter : Z }.

Definition NewRoundRobinBalancer : RoundRobinBalancer := {| counter := 0 |}.

#[global] Instance RoundRobin_Select : Balancer RoundRobinBalancer :=
  fun b agents =>
    if decide (length agents = 0%nat) then (Ok None, b)
    else
      let added := GoInt.uint64_add (counter b) 1 in
      let idx := GoInt.uint64_sub added 1 in
      (outcome_map Some
         (index agents (idx mod Z.of_nat (length agents))),
       {| counter := added |}).

(** [randFunc] may be a [nil] function value ([None]). *)
Record RandomBalancer : Type := mkRandom { randFunc : option (Z -> Z) }.

Definition NewRandomBalancer (randFunc : option (Z -> Z)) : RandomBalancer :=
  {| randFunc := randFunc |}.

#[global] Instance Random_Select : Balancer RandomBalancer :=
  fun b agents =>
    if decide (length agents = 0%nat) then (Ok None, b)
    else
      match randFunc b with
      | None => (Panic, b)
      | Some f =>
          (outcome_map Some (index agents (f (Z.of_nat (length agents)))), b)
      end.

Record FirstBalancer : Type := mkFirst { }.

Definition NewFirstBalancer : FirstBalancer := mkFirst.

#[global] Instance First_Select : Balancer FirstBalancer :=
  fun b agents =>
    if decide (length agents = 0%nat) then (Ok None, b)
    else (outcome_map Some (index agents 0), b).

(** [n] consecutive calls of [Select] on the same balancer and list. *)
Fixpoint Select_times {B} `{Balancer B} (n : nat) (b : B)
    (agents : list Agent) : list (outcome (option Agent)) * B :=
  match n with
  | O => ([], b)
  | S n' =>
      let '(r, b') := Select b agents in
      let '(rs, b'') := Select_times n' b' agents in
      (r :: rs, b'')
  end.

(** *** Injector *)

Record AgentTool (B : Type) : Type := mkAgentTool {
  capability : Capability;
  providers : list Agent;
  tool_balancer : B;
  tool_cycleDetector : CycleDetector
}.
Arguments mkAgentTool {B}.
Arguments capability {B}.
Arguments providers {B}.

Record Injector (B : Type) : Type := mkInjector {
  inj_registry : registry.Local;
  inj_balancer : B;
  inj_cycleDetector : CycleDetector
}.
Arguments mkInjector {B}.
Arguments inj_registry {B}.
Arguments inj_balancer {B}.
Arguments inj_cycleDetector {B}.

Definition NewInjector {B} (reg : registry.Local) (balancer : B)
    (cd : CycleDetector) : Injector B :=
  mkInjector reg balancer cd.

(** [fmt.Sprintf("delegate_to_%s", t.capability)] *)
Definition ToolName {B} (t : AgentTool B) : string :=
  "delegate_to_" +:+ capability t.

(** The loop of [InjectTools] over [agent.Needs()]. The [k]-th call of
    [FindByCapability] ranges over the registry in the order [sched k]. *)
Fixpoint InjectTools_range {B} (i : Injector B)
    (sched : nat -> registry.range_order) (needs : list Capability)
    (tools : list (AgentTool B)) : list (AgentTool B) * option error :=
  match needs with
  | [] => (tools, None)
  | need :: rest =>
      let '(providers, err) :=
        registry.FindByCapability (inj_registry i) (sched 0%nat) need in
      match err with
      | Some e => ([], Some (ErrFindProviders need e))
      | None =>
          let sched' := fun k => sched (S k) in
          if decide (length providers = 0%nat)
          then InjectTools_range i sched' rest tools
          else
            let tool :=
              mkAgentTool need providers (inj_balancer i)
                (inj_cycleDetector i) in
            InjectTools_range i sched' rest (tools ++ [tool])
      end
  end.

Definition InjectTools {B} (i : Injector B)
    (sched : nat -> registry.range_order) (agent : Agent)
  : list (AgentTool B) * option error :=
  InjectTools_range i sched (Needs agent) [].

(** *** Executing a delegation tool *)

(** [AgentToolInput]; the field [Context] of the source is [TaskContext]
    here. *)
Record AgentToolInput : Type := mkAgentToolInput {
  Task : string;
  TaskContext : string
}.

(** The line feed of the format string. *)
Definition LF : string := String (Ascii.ascii_of_nat 10) EmptyString.

(** [fmt.Sprintf("Context: %s\n\nTask: %s", input.Context, input.Task)] when
    the context text is not empty, the task alone otherwise. *)
Definition fullInput (input : AgentToolInput) : string :=
  if decide (TaskContext input <> EmptyString)
  then "Context: " +:+ TaskContext input +:+ LF +:+ LF +:+ "Task: "
         +:+ Task input
  else Task input.

Section Execute.
Context {B : Type} `{Balancer B} {Result JsonErr RunErr : Type}.

(** [result.Output] *)
Variable Output : Result -> string.

(** [json.Unmarshal(params, &input)] *)
Variable Unmarshal : string -> AgentToolInput + JsonErr.

(** [provider.Run(ctx, fullInput)]: the provider's own execution, an
    interface call. It returns Go's pair of a result pointer and an error
    and may itself delegate, so it runs against the balancer's state and
    the heap. *)
Variable Run :
  Agent -> Context -> string -> B -> Mem.heap ->
  outcome ((option Result * option RunErr) * B * Mem.heap).

(** The errors [Execute] returns: the guard's error is handed on as it is,
    the others are wrapped by [fmt.Errorf]. *)
Inductive ExecuteError : Type :=
| ErrInvalidInput (err : JsonErr)
| ErrNoProviderAvailable (cap : Capability)
| ErrGuard (err : error)
| ErrAgentFailed (name : string) (err : RunErr).

(** [Execute]. The tool's [balancer] field is a pointer; [b] is the state
    of the balancer it points to when the call starts, and the state after
    the call is returned. *)
Definition Execute (t : AgentTool B) (ctx : Context) (params : string)
    (b : B) (h : Mem.heap)
  : outcome ((string * option ExecuteError) * B * Mem.heap) :=
  match Unmarshal params with
  | inr err => Ok ((EmptyString, Some (ErrInvalidInput err)), b, h)
  | inl input =>
      let '(selected, b1) := Select b (providers t) in
      match selected with
      | Panic => Panic
      | Ok None =>
          Ok ((EmptyString, Some (ErrNoProviderAvailable (capability t))),
              b1, h)
      | Ok (Some provider) =>
          match Check (tool_cycleDetector B t) ctx (ID provider) h with
          | Some err => Ok ((EmptyString, Some (ErrGuard err)), b1, h)
          | None =>
              match PrepareContext (tool_cycleDetector B t) ctx
                      (ID provider) h with
              | Panic => Panic
              | Ok (ctx', h1) =>
                  match Run provider ctx' (fullInput input) b1 h1 with
                  | Panic => Panic
                  | Ok ((_, Some err), b2, h2) =>
                      Ok ((EmptyString,
                           Some (ErrAgentFailed (Name provider) err)),
                          b2, h2)
                  | Ok ((Some r, None), b2, h2) =>
                      Ok ((Output r, None), b2, h2)
                  | Ok ((None, None), b2, h2) => Panic
                  end
              end
          end
      end
  end.

End Execute.

End mesh.

(** ** Package [mesh]: the [Mesh] facade and its methods *)

Module MeshFacade.
Import core mesh.

(** The balancers that implement the [Balancer] interface in the package. *)
Inductive AnyBalancer : Type :=
| UseRoundRobin (b : RoundRobinBalancer)
| UseRandom (b : RandomBalancer)
| UseFirst (b : FirstBalancer).

#[global] Instance AnyBalancer_Select : Balancer AnyBalancer :=
  fun b agents =>
    match b with
    | UseRoundRobin rr =>
        let '(r, rr') := Select rr agents in (r, UseRoundRobin rr')
    | UseRandom rnd =>
        let '(r, rnd') := Select rnd agents in (r, UseRandom rnd')
    | UseFirst f =>
        let '(r, f') := Select f agents in (r, UseFirst f')
    end.

(** [Mesh]: the mesh with the state of the registry and of the balancer it
    points to. The injector that [New] builds last holds the same three
    pointers, so it is [mesh_injector] of the current state. The mutex is
    left out: the operations are modelled one at a time. *)
Record Mesh : Type := mkMesh {
  mesh_registry : registry.Local;
  mesh_balancer : AnyBalancer;
  mesh_cycleDetector : CycleDetector
}.

Definition mesh_injector (m : Mesh) : Injector AnyBalancer :=
  NewInjector (mesh_registry m) (mesh_balancer m) (mesh_cycleDetector m).

(** [Option]: a function that configures the mesh it is given. *)
Definition Option : Type := Mesh -> Mesh.

Definition WithMaxHops (n : Z) : Option :=
  fun m => mkMesh (mesh_registry m) (mesh_balancer m) (NewCycleDetector n).

Definition WithBalancer (b : AnyBalancer) : Option :=
  fun m => mkMesh (mesh_registry m) b (mesh_cycleDetector m).

Definition WithRegistry (r : registry.Local) : Option :=
  fun m => mkMesh r (mesh_balancer m) (mesh_cycleDetector m).

Definition New (opts : list Option) : Mesh :=
  foldl (fun m opt => opt m)
    (mkMesh registry.NewLocal (UseRoundRobin NewRoundRobinBalancer)
       (NewCycleDetector DefaultMaxHops))
    opts.

(** [Mesh.Register]: each agent in turn, stopping at the first error. *)
Fixpoint Register (m : Mesh) (agents : list Agent)
  : Mesh * option registry.error :=
  match agents with
  | [] => (m, None)
  | a :: rest =>
      let '(r, err) := registry.Register (mesh_registry m) a in
      let m' := mkMesh r (mesh_balancer m) (mesh_cycleDetector m) in
      match err with
      | Some e => (m', Some e)
      | None => Register m' rest
      end
  end.

Definition GetAgent (m : Mesh) (agentID : string)
  : option Agent * option registry.error :=
  registry.Get (mesh_registry m) agentID.

Definition ListAgents (m : Mesh) (ro : registry.range_order)
  : list Agent * option registry.error :=
  registry.List (mesh_registry m) ro.

Definition FindProviders (m : Mesh) (ro : registry.range_order)
    (cap : Capability) : list Agent * option registry.error :=
  registry.FindByCapability (mesh_registry m) ro cap.

(** The tool lists of the agent objects, by agent ID. *)
Abbreviation tool_store := (gmap string (list (AgentTool AnyBalancer))).

(** [PrepareAgent]. [isAgentImpl a] is the type test of [a] for a pointer
    to [agent.Agent]; the tools are added to the agent's list in the
    store. *)
Definition PrepareAgent (m : Mesh) (sched : nat -> registry.range_order)
    (isAgentImpl : Agent -> bool) (a : Agent) (tools : tool_store)
  : tool_store * option error :=
  let '(new, err) := InjectTools (mesh_injector m) sched a in
  match err with
  | Some e => (tools, Some e)
  | None =>
      if isAgentImpl a
      then (<[ID a := agent.AddTools (default [] (tools !! ID a)) new]> tools,
            None)
      else (tools, None)
  end.

(** What the mesh and the agents it runs act on. *)
Record World : Type := mkWorld {
  w_mesh : Mesh;
  w_tools : tool_store;
  w_heap : Mem.heap
}.

Section Run.
Context {Result RunErr : Type}.

(** [a.Run(ctx, input)], an interface call, acting on the world. *)
Variable AgentRun :
  Agent -> Context -> string -> World ->
  outcome ((option Result * option RunErr) * World).

(** [isAgentImpl a]: the agent object is a pointer to [agent.Agent]. *)
Variable isAgentImpl : Agent -> bool.

(** The errors of [RunAgent] and [Run], each handed on as it is. *)
Inductive RunError : Type :=
| FromRegistry (err : registry.error)
| FromInjector (err : error)
| FromAgent (err : RunErr).

(** The first step of [RunAgent] and [Run]: a context without trace ID gets
    the fresh one, [uuid.New().String()]. *)
Definition ensureTraceID (ctx : Context) (uuid : string) : Context :=
  if decide (TraceID ctx = EmptyString) then WithTraceID ctx uuid else ctx.

(** The common tail of [RunAgent] and [Run]: prepare the agent, then run
    it. *)
Definition prepareAndRun (sched : nat -> registry.range_order)
    (ctx : Context) (a : Agent) (input : string) (w : World)
  : outcome ((option Result * option RunError) * World) :=
  let '(tools, err) :=
    PrepareAgent (w_mesh w) sched isAgentImpl a (w_tools w) in
  match err with
  | Some e => Ok ((None, Some (FromInjector e)), w)
  | None =>
      match AgentRun a ctx input (mkWorld (w_mesh w) tools (w_heap w)) with
      | Ok ((result, err), w') => Ok ((result, FromAgent <$> err), w')
      | Panic => Panic
      end
  end.

Definition RunAgent (uuid : string) (sched : nat -> registry.range_order)
    (ctx : Context) (agentID : string) (input : string) (w : World)
  : outcome ((option Result * option RunError) * World) :=
  let ctx := ensureTraceID ctx uuid in
  match GetAgent (w_mesh w) agentID with
  | (_, Some err) => Ok ((None, Some (FromRegistry err)), w)
  | (None, None) => Panic
  | (Some a, None) => prepareAndRun sched ctx a input w
  end.

(** [Mesh.Run]: the first agent of [ListAgents]. *)
Definition Run (uuid : string) (ro : registry.range_order)
    (sched : nat -> registry.range_order) (ctx : Context) (task : string)
    (w : World)
  : outcome ((option Result * option RunError) * World) :=
  let ctx := ensureTraceID ctx uuid in
  let '(agents, err) := ListAgents (w_mesh w) ro in
  match err with
  | Some e => Ok ((None, Some (FromRegistry e)), w)
  | None =>
      if decide (length agents = 0%nat)
      then Ok ((None, Some (FromRegistry registry.ErrAgentNotFound)), w)
      else
        match index agents 0 with
        | Panic => Panic
        | Ok a => prepareAndRun sched ctx a task w
        end
  end.

End Run.

End MeshFacade.

(** * Vocabulary of the properties *)

Module Spec.
Import Mem core registry mesh.

(** What the context's chain denotes in a heap. *)
Definition chain_of (h : heap) (ctx : Context) : list string :=
  elems h (CallChain ctx).

(** The chain header of the context is valid in the heap. *)
Definition ctx_valid (h : heap) (ctx : Context) : Prop :=
  slice_valid h (CallChain ctx).

(** Contexts the guard lets a delegation reach: start from a context with
    no chain and no hop count, extend with [PrepareContext] by an ID that
    [Check] accepts. Other code may allocate in between. *)
Inductive reachable (cd : CycleDetector) : heap -> Context -> Prop :=
| reach_empty h ctx :
    Value ctx callChainKey = None ->
    Value ctx hopCountKey = None ->
    reachable cd h ctx
| reach_extend h ctx agentID ctx' h' :
    reachable cd h ctx ->
    Check cd ctx agentID h = None ->
    PrepareContext cd ctx agentID h = Ok (ctx', h') ->
    reachable cd h' ctx'
| reach_alloc h ctx arr :
    reachable cd h ctx ->
    reachable cd (h ++ [arr]) ctx.

(** The invariant of the guarded contexts. *)
Definition guard_inv (cd : CycleDetector) (h : heap) (ctx : Context) : Prop :=
  NoDup (chain_of h ctx) /\
  HopCount ctx = Z.of_nat (length (chain_of h ctx)) /\
  HopCount ctx <= maxHops cd.

(** The picks of [k] calls starting at counter value [c], when the counter
    does not wrap. *)
Definition rr_picks (c : Z) (k : nat) (agents : list Agent)
  : list (outcome (option Agent)) :=
  (fun i : nat =>
     outcome_map Some
       (index agents ((c + Z.of_nat i) `mod` Z.of_nat (length agents))))
    <$> seq 0 k.

(** A registration history: the writes applied to a fresh registry. *)
Inductive write : Type :=
| DoRegister (agent : Agent)
| DoDeregister (agentID : string).

Definition apply_write (r : Local) (w : write) : Local :=
  match w with
  | DoRegister agent => (Register r agent).1
  | DoDeregister agentID => (Deregister r agentID).1
  end.

Definition replay (history : list write) : Local :=
  foldl apply_write NewLocal history.

(** The agent is a value of the registry's map. *)
Definition registered (r : Local) (a : Agent) : Prop :=
  exists agentID, agents r !! agentID = Some a.

(** Every entry sits under its agent's own ID. *)
Definition keyed_by_ID (r : Local) : Prop :=
  forall agentID a, agents r !! agentID = Some a -> ID a = agentID.

(** The registered agents that declare [cap], in the map's own listing
    order (a reference order; the code never sees it). *)
Definition providers_of (r : Local) (cap : Capability) : list Agent :=
  filter (fun a => cap ∈ Provides a) (map_to_list (agents r)).*2.

(** At least one registered agent declares the capability. *)
Definition has_provider (r : Local) (cap : Capability) : Prop :=
  providers_of r cap ≠ [].

End Spec.

(** ** Concrete agents, registries and runs *)

Module Examples.
Import Mem core registry mesh Spec.

(** One guarded delegation step from a (context, heap) pair; a refused or
    panicking step leaves the pair as it is. *)
Definition delegate (cd : CycleDetector) (st : Context * heap)
    (agentID : string) : Context * heap :=
  match Check cd st.1 agentID st.2 with
  | Some _ => st
  | None =>
      match PrepareContext cd st.1 agentID st.2 with
      | Ok st' => st'
      | Panic => st
      end
  end.

Definition cd3 : CycleDetector := NewCycleDetector 3.
Definition st0 : Context * heap := (Background, []).
Definition stA : Context * heap := delegate cd3 st0 "A".
Definition stAB : Context * heap := delegate cd3 stA "B".
Definition stABC : Context * heap := delegate cd3 stAB "C".

Definition agent1 : Agent := mkAgent "agent-1" "agent-1" ["research"] [].
Definition agent2 : Agent := mkAgent "agent-2" "agent-2" ["research"] [].
Definition agent3 : Agent := mkAgent "agent-3" "agent-3" ["research"] [].

Definition researcher : Agent :=
  mkAgent "researcher" "researcher" ["research"] [].
Definition coder : Agent :=
  mkAgent "coder" "coder" ["coding"; "research"] [].
Definition writer : Agent :=
  mkAgent "writer" "writer" ["writing"] ["research"].

Definition history3 : list write :=
  [DoRegister researcher; DoRegister writer; DoRegister coder].

Definition writer_twice : Agent :=
  mkAgent "writer" "writer" ["writing"] ["research"; "research"].

Definition writer_mixed : Agent :=
  mkAgent "writer" "writer" ["writing"]
    ["research"; "analysis"; "coding"; "research"].

Definition injector3 : Injector RoundRobinBalancer :=
  NewInjector (replay history3) NewRoundRobinBalancer (NewCycleDetector 10).

End Examples.

(** ** Vocabulary of the further properties *)

Module SpecMore.
Import Mem core registry mesh Spec.

(** Extending a context by a list of IDs, one call after the other. *)
Fixpoint extend_all (step : Context -> string -> M Context) (ctx : Context)
    (ids : list string) : M Context :=
  match ids with
  | [] => mret ctx
  | id :: rest => ctx' ← step ctx id; extend_all step ctx' rest
  end.

Definition WithCallChain_all : Context -> list string -> M Context :=
  extend_all WithCallChain.

Definition PrepareContext_all (cd : CycleDetector)
  : Context -> list string -> M Context :=
  extend_all (PrepareContext cd).

(** [n] calls of [WithHopCount]. *)
Definition WithHopCount_times (n : nat) (ctx : Context) : Context :=
  Nat.iter n WithHopCount ctx.

(** The agent ID a write is about. *)
Definition write_id (w : write) : string :=
  match w with
  | DoRegister agent => ID agent
  | DoDeregister agentID => agentID
  end.

(** The last write of a history that is about the given ID. *)
Definition last_write (history : list write) (agentID : string)
  : option write :=
  last (filter (fun w => write_id w = agentID) history).

(** The writes of a history applied to a registry. *)
Definition apply_writes (r : Local) (history : list write) : Local :=
  foldl apply_write r history.

(** The options the package offers for [New]. *)
Inductive package_option : MeshFacade.Option -> Prop :=
| option_max_hops n : package_option (MeshFacade.WithMaxHops n)
| option_balancer b : package_option (MeshFacade.WithBalancer b)
| option_registry r : package_option (MeshFacade.WithRegistry r).

(** An iteration order that visits the given entry first when it is there
    and keeps the others in place. *)
Definition visit_first (entry : string * Agent) : range_order :=
  fun entries =>
    match list_find (fun e => e = entry) entries with
    | Some (i, e) => e :: delete i entries
    | None => entries
    end.

(** The last agent of a batch that has the given ID. *)
Definition last_with_ID (agents : list Agent) (agentID : string)
  : option Agent :=
  last (filter (fun a => ID a = agentID) agents).

End SpecMore.

(** * Properties *)

(** ** Machine integers *)

Module GoIntFacts.
Import GoInt.

Lemma wrap_int_id z : is_int z -> wrap_int z = z.
Proof.
  unfold is_int, wrap_int, int_min, int_max, uint64_mod. intros Hz.
  rewrite Z.mod_small; lia.
Qed.

Lemma wrap_int_is_int z : is_int (wrap_int z).
Proof.
  unfold is_int, wrap_int, int_min, int_max, uint64_mod.
  pose proof (Z.mod_pos_bound (z - - 2 ^ 63) (2 ^ 64)). lia.
Qed.

Lemma int_add_no_overflow x y : is_int (x + y) -> int_add x y = x + y.
Proof. apply wrap_int_id. Qed.

(** Below the largest [int], Go's [x + 1] is the successor. *)
Lemma int_add_1_exact x : is_int x -> x < int_max -> int_add x 1 = x + 1.
Proof.
  intros Hx Hlt. apply int_add_no_overflow.
  unfold is_int, int_min, int_max in *. lia.
Qed.

Lemma wrap_uint64_id z : is_uint64 z -> wrap_uint64 z = z.
Proof. unfold is_uint64, wrap_uint64. intros Hz. apply Z.mod_small; lia. Qed.

Lemma wrap_uint64_is_uint64 z : is_uint64 (wrap_uint64 z).
Proof.
  unfold is_uint64, wrap_uint64, uint64_mod. apply Z.mod_pos_bound. lia.
Qed.

(** [atomic.AddUint64(&c, 1) - 1] is the value the counter had before. *)
Lemma uint64_add_sub_1 c : is_uint64 c -> uint64_sub (uint64_add c 1) 1 = c.
Proof.
  unfold is_uint64, uint64_sub, uint64_add, wrap_uint64, uint64_mod.
  intros Hc. rewrite Zminus_mod_idemp_l.
  replace (c + 1 - 1) with c by lia. apply Z.mod_small; lia.
Qed.

End GoIntFacts.

(** ** Memory *)

Module MemFacts.
Import Mem.

(** Allocation only appends: what a valid header denotes is unchanged. *)
Lemma elems_app h arr s : slice_valid h s -> elems (h ++ [arr]) s = elems h s.
Proof.
  destruct s as [|a n]; simpl; [done|].
  intros (old & Hold & _).
  by rewrite (lookup_app_l_Some _ [arr] _ _ Hold), Hold.
Qed.

Lemma slice_valid_app h arr s : slice_valid h s -> slice_valid (h ++ [arr]) s.
Proof.
  destruct s as [|a n]; simpl; [done|].
  intros (old & Hold & Hlen). exists old. split; [|done].
  by apply lookup_app_l_Some.
Qed.

Lemma elems_length h s : slice_valid h s -> length (elems h s) = len s.
Proof.
  destruct s as [|a n]; simpl; [done|].
  intros (arr & -> & Hlen). simpl. rewrite length_take. lia.
Qed.

Lemma elems_fresh h n arr :
  length arr = n -> elems (h ++ [arr]) (Slice (length h) n) = arr.
Proof.
  intros Hlen. simpl. rewrite list_lookup_middle; [|done]. simpl.
  apply take_ge. lia.
Qed.

Lemma alter_fresh (f : list string -> list string) h arr :
  alter f (length h) (h ++ [arr]) = h ++ [f arr].
Proof.
  replace (length h) with (length h + 0)%nat at 1 by lia.
  by rewrite (alter_app_r f h [arr] 0).
Qed.

End MemFacts.

(** ** The execution context *)

Module coreFacts.
Import Mem MemFacts core Spec.

Lemma InCallChain_range_spec chain agentID :
  InCallChain_range chain agentID = true <-> agentID ∈ chain.
Proof.
  induction chain as [|id rest IH]; simpl.
  - split; [done | by intros ?%not_elem_of_nil].
  - rewrite elem_of_cons. destruct (decide (id = agentID)) as [->|Hne].
    + tauto.
    + rewrite IH. split; [tauto | intros [?|?]; congruence].
Qed.

Lemma InCallChain_spec h ctx agentID :
  InCallChain ctx agentID h = true <-> agentID ∈ chain_of h ctx.
Proof. apply InCallChain_range_spec. Qed.

(** [WithCallChain] allocates one array holding the old elements followed
    by the new ID, and touches nothing else. *)
Lemma WithCallChain_run h ctx agentID :
  ctx_valid h ctx ->
  WithCallChain ctx agentID h =
    Ok (WithValue ctx callChainKey
          (VStrings (Slice (length h) (len (CallChain ctx) + 1))),
        h ++ [chain_of h ctx ++ [agentID]]).
Proof.
  intros Hv. unfold WithCallChain, chain_of, ctx_valid in *.
  set (chain := CallChain ctx) in *.
  pose proof (elems_length h chain Hv) as Hlen.
  unfold mbind, M_bind, mret, M_ret, bind, ret, make. simpl.
  rewrite alter_fresh.
  rewrite Nat.min_r by lia.
  rewrite elems_app by done.
  rewrite take_ge by lia.
  rewrite drop_replicate.
  replace (len chain + 1 - len chain)%nat with 1%nat by lia. simpl.
  destruct (decide (len chain < len chain + 1)%nat) as [_|]; [|lia].
  rewrite alter_fresh.
  rewrite insert_app_r_alt by lia.
  replace (len chain - length (elems h chain))%nat with 0%nat by lia.
  done.
Qed.

Lemma CallChain_WithValue_chain ctx s :
  CallChain (WithValue ctx callChainKey (VStrings s)) = s.
Proof. reflexivity. Qed.

Lemma CallChain_WithHopCount ctx : CallChain (WithHopCount ctx) = CallChain ctx.
Proof. reflexivity. Qed.

Lemma HopCount_WithHopCount ctx :
  HopCount (WithHopCount ctx) = GoInt.int_add (HopCount ctx) 1.
Proof. reflexivity. Qed.

Lemma HopCount_WithValue_chain ctx v :
  HopCount (WithValue ctx callChainKey v) = HopCount ctx.
Proof. reflexivity. Qed.

End coreFacts.

(** ** The cycle detector *)

Module guardFacts.
Import Mem MemFacts core coreFacts mesh Spec.

(** [PrepareContext] on a valid context: one allocation, the new context
    points at the fresh array, the hop count is bumped. *)
Lemma PrepareContext_run cd h ctx agentID :
  ctx_valid h ctx ->
  PrepareContext cd ctx agentID h =
    Ok (WithHopCount
          (WithValue ctx callChainKey
             (VStrings (Slice (length h) (len (CallChain ctx) + 1)))),
        h ++ [chain_of h ctx ++ [agentID]]).
Proof.
  intros Hv. unfold PrepareContext, mbind, M_bind, bind.
  by rewrite WithCallChain_run.
Qed.

Lemma PrepareContext_inv cd h ctx agentID ctx' h' :
  ctx_valid h ctx ->
  PrepareContext cd ctx agentID h = Ok (ctx', h') ->
  h' = h ++ [chain_of h ctx ++ [agentID]] /\
  chain_of h' ctx' = chain_of h ctx ++ [agentID] /\
  ctx_valid h' ctx' /\
  HopCount ctx' = GoInt.int_add (HopCount ctx) 1.
Proof.
  intros Hv Hrun. rewrite PrepareContext_run in Hrun by done.
  injection Hrun as <- <-. split; [done|].
  unfold chain_of, ctx_valid.
  rewrite CallChain_WithHopCount, CallChain_WithValue_chain.
  assert (length (chain_of h ctx ++ [agentID]) = (len (CallChain ctx) + 1)%nat)
    as Hlen.
  { rewrite length_app. unfold chain_of. rewrite elems_length by done.
    simpl. lia. }
  split; [by apply elems_fresh|]. split; [|done].
  simpl. eexists. split; [|exact Hlen]. by apply list_lookup_middle.
Qed.

Lemma Check_None cd h ctx agentID :
  Check cd ctx agentID h = None ->
  (agentID ∉ chain_of h ctx) /\ HopCount ctx < maxHops cd.
Proof.
  unfold Check. destruct (InCallChain ctx agentID h) eqn:Hin; [done|].
  destruct (decide (HopCount ctx >= maxHops cd)); [done|]. intros _.
  split; [|lia]. rewrite <- InCallChain_spec. by rewrite Hin.
Qed.

(** Membership in the chain decides [Check] before the hop count does. *)
Lemma Check_in_chain cd h ctx agentID :
  agentID ∈ chain_of h ctx -> Check cd ctx agentID h = Some ErrCycleDetected.
Proof.
  intros Hin. unfold Check. apply InCallChain_spec in Hin. by rewrite Hin.
Qed.

Lemma Check_not_in_chain cd h ctx agentID :
  agentID ∉ chain_of h ctx ->
  Check cd ctx agentID h =
    if decide (HopCount ctx >= maxHops cd) then Some ErrMaxHopsExceeded
    else None.
Proof.
  intros Hnotin. unfold Check.
  destruct (InCallChain ctx agentID h) eqn:Hin; [|done].
  by apply InCallChain_spec in Hin.
Qed.

Lemma reachable_inv cd h ctx :
  0 <= maxHops cd <= GoInt.int_max ->
  reachable cd h ctx ->
  ctx_valid h ctx /\ guard_inv cd h ctx.
Proof.
  intros Hmax Hreach. induction Hreach as
    [h ctx Hc Hh | h ctx agentID ctx' h' _ IH Hchk Hrun | h ctx arr _ IH].
  - assert (CallChain ctx = nil_slice) as Hnil
      by (unfold CallChain; by rewrite Hc).
    unfold ctx_valid, guard_inv, chain_of. rewrite Hnil. simpl.
    unfold HopCount. rewrite Hh. repeat split; try lia. constructor.
  - destruct IH as (Hv & Hnd & Hhop & _).
    apply Check_None in Hchk as [Hnotin Hlt].
    destruct (PrepareContext_inv _ _ _ _ _ _ Hv Hrun)
      as (_ & Hchain & Hv' & Hhop').
    split; [done|]. unfold guard_inv. rewrite Hchain, Hhop'.
    unfold GoInt.int_add. rewrite GoIntFacts.wrap_int_id.
    + repeat split.
      * apply NoDup_app. repeat split; [done | | apply NoDup_singleton].
        intros x Hx ->%list_elem_of_singleton. done.
      * rewrite length_app. simpl. lia.
      * lia.
    + unfold GoInt.is_int, GoInt.int_min, GoInt.int_max in *. lia.
  - destruct IH as (Hv & Hinv). split; [by apply slice_valid_app|].
    unfold guard_inv, chain_of in *. by rewrite elems_app.
Qed.

End guardFacts.

(** ** The guard's properties *)

Section Guard.
Import Mem MemFacts core coreFacts mesh Spec guardFacts Examples.

Example stABC_chain : chain_of stABC.2 stABC.1 = ["A"; "B"; "C"].
Proof. reflexivity. Qed.

Example stABC_hops : HopCount stABC.1 = 3.
Proof. reflexivity. Qed.

Example stABC_heap : stABC.2 = [["A"]; ["A"; "B"]; ["A"; "B"; "C"]].
Proof. reflexivity. Qed.

(** C1. Every context reachable from an empty one by [Check]-approved
    [PrepareContext] extensions, under a detector built by
    [NewCycleDetector], has pairwise distinct chain entries, a hop count
    equal to the chain's length, and a hop count of at most [maxHops];
    and extending such a context never panics. *)
Theorem guarded_context_invariant (n : Z) (h : heap) (ctx : Context) :
  GoInt.is_int n ->
  reachable (NewCycleDetector n) h ctx ->
  NoDup (chain_of h ctx) /\
  HopCount ctx = Z.of_nat (length (chain_of h ctx)) /\
  HopCount ctx <= MaxHops (NewCycleDetector n) /\
  (forall agentID, exists ctx' h',
      PrepareContext (NewCycleDetector n) ctx agentID h = Ok (ctx', h')).
Proof.
  intros Hn Hreach.
  assert (0 <= maxHops (NewCycleDetector n) <= GoInt.int_max) as Hmax.
  { unfold NewCycleDetector, DefaultMaxHops, GoInt.is_int, GoInt.int_max in *.
    simpl. destruct (decide (n <= 0)); lia. }
  destruct (reachable_inv _ _ _ Hmax Hreach) as (Hv & Hnd & Hhop & Hle).
  repeat split; try done.
  intros agentID. do 2 eexists. by apply PrepareContext_run.
Qed.

Lemma guarded_context_invariant_witness :
  NoDup (chain_of stABC.2 stABC.1) /\
  HopCount stABC.1 = Z.of_nat (length (chain_of stABC.2 stABC.1)) /\
  HopCount stABC.1 <= MaxHops (NewCycleDetector 3) /\
  (forall agentID, exists ctx' h',
      PrepareContext (NewCycleDetector 3) stABC.1 agentID stABC.2
      = Ok (ctx', h')).
Proof.
  apply (guarded_context_invariant 3).
  - unfold GoInt.is_int, GoInt.int_min, GoInt.int_max. lia.
  - apply (reach_extend _ stAB.2 stAB.1 "C"); [|reflexivity..].
    apply (reach_extend _ stA.2 stA.1 "B"); [|reflexivity..].
    apply (reach_extend _ st0.2 st0.1 "A"); [|reflexivity..].
    by apply reach_empty.
Defined.

(** C2. If the candidate ID occurs anywhere in the context's call chain,
    [Check] returns the cycle error, whatever the hop count. *)
Theorem Check_detects_cycle (cd : CycleDetector) (h : heap) (ctx : Context)
    (X : string) :
  X ∈ chain_of h ctx ->
  Check cd ctx X h = Some ErrCycleDetected.
Proof.
  intros Hin. unfold Check.
  destruct (InCallChain ctx X h) eqn:Hscan; [done|].
  apply InCallChain_spec in Hin. congruence.
Qed.

(** Indirect re-entrancy: A, then B, then C, and back to A. *)
Lemma Check_detects_cycle_witness :
  Check cd3 stABC.1 "A" stABC.2 = Some ErrCycleDetected.
Proof.
  apply Check_detects_cycle. apply list_elem_of_here.
Defined.

(** C3 as stated fails: with [maxHops = 1] and the chain [A], the hop
    count has reached the budget, yet [Check] for [A] reports the cycle,
    not the hop budget. *)
Lemma Check_hop_budget_counterexample :
  HopCount (delegate (NewCycleDetector 1) st0 "A").1
    >= maxHops (NewCycleDetector 1) /\
  Check (NewCycleDetector 1) (delegate (NewCycleDetector 1) st0 "A").1 "A"
    (delegate (NewCycleDetector 1) st0 "A").2
  <> Some ErrMaxHopsExceeded.
Proof. split; [by vm_compute | by vm_compute]. Qed.

(** C3, amended. When the hop count has reached [maxHops], [Check]
    returns the hop-budget error for every candidate ID that is not in the
    call chain, and the cycle error for one that is. *)
Theorem Check_hop_budget (cd : CycleDetector) (h : heap) (ctx : Context)
    (anyID : string) :
  HopCount ctx >= maxHops cd ->
  (anyID ∉ chain_of h ctx -> Check cd ctx anyID h = Some ErrMaxHopsExceeded) /\
  (anyID ∈ chain_of h ctx -> Check cd ctx anyID h = Some ErrCycleDetected).
Proof.
  intros Hhop. split; [|apply Check_in_chain].
  intros Hnotin. rewrite Check_not_in_chain by done. by rewrite decide_True.
Qed.

(** The scenario of the budget: [maxHops = 3], chain A, B, C, candidate D. *)
Lemma Check_hop_budget_witness :
  Check cd3 stABC.1 "D" stABC.2 = Some ErrMaxHopsExceeded.
Proof.
  apply (Check_hop_budget cd3 stABC.2 stABC.1 "D").
  - vm_compute. discriminate.
  - change ("D" ∉ ["A"; "B"; "C"]). rewrite !not_elem_of_cons.
    repeat split; (discriminate || apply not_elem_of_nil).
Defined.

(** C4. [PrepareContext] does not mutate its input. Extending the same
    context [c] first by [A] and then by [B] gives two new contexts whose
    chains are [c]'s chain followed by [A], respectively by [B], each with
    [c]'s hop count plus one (Go's [+] on [int], the successor below the
    largest [int]); after both calls the chain denoted by [c] is what it
    was, and so is the chain of the first extension after the second. The
    context [c] itself is an immutable value: its hop count is not stored
    in the heap. *)
Theorem PrepareContext_does_not_mutate (cd : CycleDetector) (h : heap)
    (c : Context) (A B : string) :
  ctx_valid h c ->
  exists cA hA cB hB,
    PrepareContext cd c A h = Ok (cA, hA) /\
    PrepareContext cd c B hA = Ok (cB, hB) /\
    chain_of hA cA = chain_of h c ++ [A] /\
    chain_of hB cA = chain_of h c ++ [A] /\
    chain_of hB cB = chain_of h c ++ [B] /\
    chain_of hA c = chain_of h c /\
    chain_of hB c = chain_of h c /\
    HopCount cA = GoInt.int_add (HopCount c) 1 /\
    HopCount cB = GoInt.int_add (HopCount c) 1 /\
    (GoInt.is_int (HopCount c) -> HopCount c < GoInt.int_max ->
     HopCount cA = HopCount c + 1 /\ HopCount cB = HopCount c + 1).
Proof.
  intros Hv.
  destruct (PrepareContext cd c A h) as [[cA hA]|] eqn:HA;
    [|by rewrite PrepareContext_run in HA].
  destruct (PrepareContext_inv _ _ _ _ _ _ Hv HA) as (-> & HcA & HvA & HhA).
  assert (ctx_valid (h ++ [chain_of h c ++ [A]]) c) as Hv'
    by by apply slice_valid_app.
  assert (chain_of (h ++ [chain_of h c ++ [A]]) c = chain_of h c) as Hc'
    by by apply elems_app.
  destruct (PrepareContext cd c B (h ++ [chain_of h c ++ [A]]))
    as [[cB hB]|] eqn:HB; [|by rewrite PrepareContext_run in HB].
  destruct (PrepareContext_inv _ _ _ _ _ _ Hv' HB) as (-> & HcB & HvB & HhB).
  exists cA, (h ++ [chain_of h c ++ [A]]), cB,
    ((h ++ [chain_of h c ++ [A]]) ++ [chain_of (h ++ [chain_of h c ++ [A]]) c ++ [B]]).
  repeat split; try done.
  - unfold chain_of in *. by rewrite elems_app.
  - by rewrite HcB, Hc'.
  - unfold chain_of in *. by rewrite elems_app.
  - rewrite HhA. by apply GoIntFacts.int_add_1_exact.
  - rewrite HhB. by apply GoIntFacts.int_add_1_exact.
Qed.

(** Two sibling branches from the context that has visited [A]. *)
Lemma PrepareContext_does_not_mutate_witness :
  exists cA hA cB hB,
    PrepareContext cd3 stA.1 "B" stA.2 = Ok (cA, hA) /\
    PrepareContext cd3 stA.1 "C" hA = Ok (cB, hB) /\
    chain_of hA cA = chain_of stA.2 stA.1 ++ ["B"] /\
    chain_of hB cA = chain_of stA.2 stA.1 ++ ["B"] /\
    chain_of hB cB = chain_of stA.2 stA.1 ++ ["C"] /\
    chain_of hA stA.1 = chain_of stA.2 stA.1 /\
    chain_of hB stA.1 = chain_of stA.2 stA.1 /\
    HopCount cA = GoInt.int_add (HopCount stA.1) 1 /\
    HopCount cB = GoInt.int_add (HopCount stA.1) 1 /\
    (GoInt.is_int (HopCount stA.1) -> HopCount stA.1 < GoInt.int_max ->
     HopCount cA = HopCount stA.1 + 1 /\ HopCount cB = HopCount stA.1 + 1).
Proof.
  apply (PrepareContext_does_not_mutate cd3 stA.2 stA.1 "B" "C").
  exists ["A"]. split; reflexivity.
Defined.

(** C9. [NewCycleDetector] replaces a non-positive [maxHops] by the
    default of 10 and keeps a positive one as given. *)
Theorem NewCycleDetector_clamp (n : Z) :
  (n <= 0 -> MaxHops (NewCycleDetector n) = 10) /\
  (0 < n -> MaxHops (NewCycleDetector n) = n).
Proof.
  unfold MaxHops, NewCycleDetector, DefaultMaxHops. simpl.
  destruct (decide (n <= 0)); split; intros; (done || lia).
Qed.

Lemma NewCycleDetector_clamp_witness :
  MaxHops (NewCycleDetector (-5)) = 10 /\
  MaxHops (NewCycleDetector 0) = 10 /\
  MaxHops (NewCycleDetector 7) = 7.
Proof.
  split; [|split].
  - apply (NewCycleDetector_clamp (-5)). lia.
  - apply (NewCycleDetector_clamp 0). lia.
  - apply (NewCycleDetector_clamp 7). lia.
Defined.

End Guard.

(** ** The balancers *)

Module balancerFacts.
Import core mesh Spec.

Lemma index_lookup {A} (l : list A) (i : Z) :
  0 <= i < Z.of_nat (length l) ->
  exists a, index l i = Ok a /\ l !! Z.to_nat i = Some a.
Proof.
  intros Hi. unfold index. rewrite decide_True by done.
  destruct (lookup_lt_is_Some_2 l (Z.to_nat i)) as [a Ha]; [lia|].
  exists a. by rewrite Ha.
Qed.

Lemma index_Some {A} (l : list A) (i : Z) (a : A) :
  0 <= i -> l !! Z.to_nat i = Some a -> index l i = Ok a.
Proof.
  intros Hi Ha. unfold index. rewrite Ha.
  apply lookup_lt_Some in Ha. by rewrite decide_True by lia.
Qed.

(** One round-robin call on a non-empty list: the agent at the old counter
    value modulo the length, and the counter advanced with wrap-around. *)
Lemma RoundRobin_Select_run (b : RoundRobinBalancer) (agents : list Agent) :
  GoInt.is_uint64 (counter b) ->
  agents ≠ [] ->
  Select b agents =
    (outcome_map Some
       (index agents (counter b `mod` Z.of_nat (length agents))),
     {| counter := GoInt.uint64_add (counter b) 1 |}).
Proof.
  intros Hc Hne. unfold Select, RoundRobin_Select.
  destruct (decide (length agents = 0%nat)) as [Hlen|_].
  - by destruct agents.
  - by rewrite GoIntFacts.uint64_add_sub_1.
Qed.

Lemma rr_picks_S (c : Z) (k : nat) (agents : list Agent) :
  rr_picks c (S k) agents =
    outcome_map Some (index agents (c `mod` Z.of_nat (length agents)))
    :: rr_picks (c + 1) k agents.
Proof.
  unfold rr_picks. cbn [seq fmap list_fmap]. rewrite Z.add_0_r. f_equal.
  rewrite <- fmap_S_seq, <- list_fmap_compose.
  apply list_fmap_ext. intros _ i _. simpl. do 3 f_equal. lia.
Qed.

Lemma Select_times_picks (k : nat) (b : RoundRobinBalancer)
    (agents : list Agent) :
  GoInt.is_uint64 (counter b) ->
  counter b + Z.of_nat k <= GoInt.uint64_mod ->
  agents ≠ [] ->
  Select_times k b agents =
    (rr_picks (counter b) k agents,
     {| counter := GoInt.wrap_uint64 (counter b + Z.of_nat k) |}).
Proof.
  revert b. induction k as [|k IH]; intros [c] Hc Hk Hne.
  - cbn [Select_times counter]. rewrite Z.add_0_r.
    by rewrite GoIntFacts.wrap_uint64_id.
  - cbn [Select_times counter] in *.
    rewrite RoundRobin_Select_run by done. cbn [counter].
    rewrite rr_picks_S. unfold GoInt.uint64_add.
    destruct (decide (k = 0%nat)) as [->|Hk0].
    + by cbn [Select_times].
    + assert (GoInt.is_uint64 (c + 1)) as Hc1
        by (unfold GoInt.is_uint64, GoInt.uint64_mod in *; lia).
      rewrite (GoIntFacts.wrap_uint64_id (c + 1)) by done.
      rewrite IH; [|done|cbn [counter]; lia|done]. cbn [counter].
      do 3 f_equal. lia.
Qed.

Lemma rr_picks_rotate (c : Z) (agents : list Agent) :
  0 <= c ->
  rr_picks c (length agents) agents =
    (fun a => Ok (Some a)) <$> rotate (Z.to_nat c) agents.
Proof.
  intros Hc. apply list_eq. intros i. unfold rr_picks.
  rewrite !list_lookup_fmap.
  destruct (decide (i < length agents)%nat) as [Hi|Hi].
  - rewrite lookup_seq_lt by done. rewrite lookup_rotate_r by done.
    unfold rotate_nat_add. rewrite Z2Nat.id by done. simpl.
    assert (0 <= (c + Z.of_nat i) `mod` Z.of_nat (length agents)
            < Z.of_nat (length agents)) as Hr
      by (apply Z.mod_pos_bound; lia).
    destruct (index_lookup agents _ Hr) as (a & -> & ->). done.
  - rewrite lookup_seq_ge by lia.
    rewrite lookup_ge_None_2; [done|]. rewrite length_rotate. lia.
Qed.

Lemma rotate_Permutation {A} (n : nat) (l : list A) : rotate n l ≡ₚ l.
Proof.
  unfold rotate. rewrite Permutation_app_comm. by rewrite take_drop.
Qed.

End balancerFacts.

Section Balancers.
Import core mesh Spec balancerFacts Examples.

(** C6 as stated fails at the wrap-around of the 64-bit counter: started
    at the largest counter value, three calls over three candidates return
    the first candidate twice and the third never. *)
Lemma RoundRobin_wrap_counterexample :
  (Select_times 3 {| counter := 2 ^ 64 - 1 |} [agent1; agent2; agent3]).1
  = [Ok (Some agent1); Ok (Some agent1); Ok (Some agent2)] /\
  ~ (Select_times 3 {| counter := 2 ^ 64 - 1 |} [agent1; agent2; agent3]).1
    ≡ₚ [Ok (Some agent1); Ok (Some agent2); Ok (Some agent3)].
Proof.
  assert ((Select_times 3 {| counter := 2 ^ 64 - 1 |}
             [agent1; agent2; agent3]).1
          = [Ok (Some agent1); Ok (Some agent1); Ok (Some agent2)]) as Hrun
    by by vm_compute.
  split; [exact Hrun|]. rewrite Hrun. intros Hperm.
  assert (Ok (Some agent3) ∈
            [Ok (Some agent1); Ok (Some agent1); Ok (Some agent2)]) as Hin.
  { rewrite Hperm. rewrite !elem_of_cons. tauto. }
  rewrite !elem_of_cons in Hin.
  destruct Hin as [Hin|[Hin|[Hin|Hin]]];
    [discriminate Hin..|by apply not_elem_of_nil in Hin].
Qed.

(** C6, amended. Provided the 64-bit counter does not wrap around during
    the calls, [N] consecutive round-robin calls over a fixed list of [N]
    candidates return each candidate exactly once: the list rotated by the
    counter value at the start. The counter ends [N] higher. *)
Theorem RoundRobin_full_cycle (b : RoundRobinBalancer) (agents : list Agent) :
  GoInt.is_uint64 (counter b) ->
  counter b + Z.of_nat (length agents) <= GoInt.uint64_mod ->
  (Select_times (length agents) b agents).1
    = (fun a => Ok (Some a)) <$> rotate (Z.to_nat (counter b)) agents /\
  (Select_times (length agents) b agents).1
    ≡ₚ (fun a => Ok (Some a)) <$> agents /\
  counter (Select_times (length agents) b agents).2
    = GoInt.wrap_uint64 (counter b + Z.of_nat (length agents)).
Proof.
  intros Hc Hn. destruct (decide (agents = [])) as [->|Hne].
  - cbn [length Select_times fst snd]. unfold rotate.
    rewrite drop_nil, take_nil, Z.add_0_r.
    by rewrite GoIntFacts.wrap_uint64_id.
  - rewrite Select_times_picks by done. cbn [fst snd counter].
    rewrite rr_picks_rotate by (unfold GoInt.is_uint64 in Hc; lia).
    split; [done|]. split; [|done].
    by rewrite rotate_Permutation.
Qed.

(** Starting at counter value 4, three candidates come back rotated by
    one. *)
Lemma RoundRobin_full_cycle_witness :
  (Select_times 3 {| counter := 4 |} [agent1; agent2; agent3]).1
    = (fun a => Ok (Some a)) <$> rotate (Z.to_nat 4) [agent1; agent2; agent3] /\
  (Select_times 3 {| counter := 4 |} [agent1; agent2; agent3]).1
    ≡ₚ (fun a => Ok (Some a)) <$> [agent1; agent2; agent3] /\
  counter (Select_times 3 {| counter := 4 |} [agent1; agent2; agent3]).2
    = GoInt.wrap_uint64 (4 + Z.of_nat 3).
Proof.
  apply (RoundRobin_full_cycle {| counter := 4 |} [agent1; agent2; agent3]).
  - unfold GoInt.is_uint64, GoInt.uint64_mod. simpl. lia.
  - unfold GoInt.uint64_mod. simpl. lia.
Defined.

(** C8. On a [nil] or empty candidate list (both are the empty list here)
    every policy returns [nil], without panicking and without touching
    its state; the random policy does so even with a [nil] randomness
    function. *)
Theorem Select_empty (rr : RoundRobinBalancer) (rnd : RandomBalancer)
    (first : FirstBalancer) :
  Select rr [] = (Ok None, rr) /\
  Select rnd [] = (Ok None, rnd) /\
  Select first [] = (Ok None, first).
Proof. by repeat split. Qed.

(** C10. On a non-empty candidate list, round-robin and first return one
    of the candidates, never [nil] and never a panic; so does random when
    its randomness function is present and answers, for the list's length
    [n], with an index in [[0, n)]. *)
Theorem Select_nonempty (agents : list Agent) (rr : RoundRobinBalancer)
    (rnd : RandomBalancer) (first : FirstBalancer) :
  agents ≠ [] ->
  (exists a, (Select rr agents).1 = Ok (Some a) /\ a ∈ agents) /\
  (exists a, (Select first agents).1 = Ok (Some a) /\ a ∈ agents) /\
  (forall f,
      randFunc rnd = Some f ->
      0 <= f (Z.of_nat (length agents)) < Z.of_nat (length agents) ->
      exists a, (Select rnd agents).1 = Ok (Some a) /\ a ∈ agents).
Proof.
  intros Hne.
  assert (length agents ≠ 0%nat) as Hlen by by destruct agents.
  unfold Select, RoundRobin_Select, First_Select, Random_Select.
  rewrite !decide_False by done. cbn [fst].
  split; [|split].
  - set (idx := GoInt.uint64_sub _ 1).
    assert (0 <= idx `mod` Z.of_nat (length agents) < Z.of_nat (length agents))
      as Hr by (apply Z.mod_pos_bound; lia).
    destruct (index_lookup agents _ Hr) as (a & -> & Ha).
    exists a. split; [done|]. by eapply list_elem_of_lookup_2.
  - assert (0 <= 0 < Z.of_nat (length agents)) as Hr by lia.
    destruct (index_lookup agents _ Hr) as (a & -> & Ha).
    exists a. split; [done|]. by eapply list_elem_of_lookup_2.
  - intros f -> Hr. cbn [fst].
    destruct (index_lookup agents _ Hr) as (a & -> & Ha).
    exists a. split; [done|]. by eapply list_elem_of_lookup_2.
Qed.

(** Three candidates; the randomness function picks the last index. *)
Lemma Select_nonempty_witness :
  (exists a, (Select {| counter := 7 |} [agent1; agent2; agent3]).1
             = Ok (Some a) /\ a ∈ [agent1; agent2; agent3]) /\
  (exists a, (Select mkFirst [agent1; agent2; agent3]).1
             = Ok (Some a) /\ a ∈ [agent1; agent2; agent3]) /\
  (exists a,
      (Select (NewRandomBalancer (Some (fun n => n - 1)))
         [agent1; agent2; agent3]).1 = Ok (Some a) /\
      a ∈ [agent1; agent2; agent3]).
Proof.
  destruct (Select_nonempty [agent1; agent2; agent3] {| counter := 7 |}
              (NewRandomBalancer (Some (fun n => n - 1))) mkFirst
              ltac:(discriminate)) as (Hrr & Hfirst & Hrnd).
  split; [exact Hrr|]. split; [exact Hfirst|].
  apply (Hrnd (fun n => n - 1)); [reflexivity | simpl; lia].
Defined.

End Balancers.

(** ** The registry *)

Module registryFacts.
Import core registry Spec.

Lemma replay_keyed_by_ID history : keyed_by_ID (replay history).
Proof.
  unfold replay.
  assert (keyed_by_ID NewLocal) as Hinit
    by (intros agentID a; simpl; by rewrite lookup_empty).
  revert Hinit. generalize NewLocal as r. revert history.
  induction history as [|w history IH]; intros r Hr; [done|].
  simpl. apply IH. destruct w as [agent|agentID]; intros k a; simpl.
  - destruct (decide (ID agent = k)) as [<-|Hne].
    + rewrite lookup_insert_eq. by intros [= <-].
    + rewrite lookup_insert_ne by done. apply Hr.
  - destruct (decide (agentID = k)) as [<-|Hne].
    + by rewrite lookup_delete_eq.
    + rewrite lookup_delete_ne by done. apply Hr.
Qed.

Lemma Provides_range_spec provides cap :
  Provides_range provides cap = true <-> cap ∈ provides.
Proof.
  induction provides as [|provided rest IH]; simpl.
  - split; [done | by intros ?%not_elem_of_nil].
  - rewrite elem_of_cons. destruct (decide (provided = cap)) as [->|Hne].
    + tauto.
    + rewrite IH. split; [tauto | intros [?|?]; congruence].
Qed.

Lemma FindByCapability_range_filter entries cap result :
  FindByCapability_range entries cap result =
    result ++ filter (fun a => cap ∈ Provides a) entries.*2.
Proof.
  revert result. induction entries as [|[k agent] rest IH]; intros result.
  - simpl. by rewrite app_nil_r.
  - cbn [FindByCapability_range fmap list_fmap snd]. rewrite IH.
    rewrite filter_cons.
    destruct (Provides_range (Provides agent) cap) eqn:Hp.
    + apply Provides_range_spec in Hp. rewrite decide_True by done.
      by rewrite <- app_assoc.
    + rewrite decide_False; [done|].
      intros Hin%Provides_range_spec. congruence.
Qed.

Lemma FindByCapability_providers_of r ro cap :
  range_order_ok ro ->
  (FindByCapability r ro cap).1 ≡ₚ providers_of r cap.
Proof.
  intros Hro. unfold FindByCapability, providers_of. cbn [fst].
  rewrite FindByCapability_range_filter. simpl.
  by rewrite (Hro (map_to_list (agents r))).
Qed.

Lemma elem_of_providers_of r cap a :
  a ∈ providers_of r cap <-> registered r a /\ cap ∈ Provides a.
Proof.
  unfold providers_of, registered.
  rewrite list_elem_of_filter, list_elem_of_fmap. split.
  - intros [Hcap ([k a'] & -> & Hin)]. split; [|done].
    exists k. by apply elem_of_map_to_list in Hin.
  - intros [[k Hk] Hcap]. split; [done|].
    exists (k, a). split; [done|]. by apply elem_of_map_to_list.
Qed.

Lemma providers_of_NoDup r cap :
  keyed_by_ID r -> NoDup (providers_of r cap).
Proof.
  intros Hkey. unfold providers_of. apply NoDup_filter.
  apply NoDup_fmap_2_strong; [|apply NoDup_map_to_list].
  intros [k1 a1] [k2 a2] Hin1%elem_of_map_to_list Hin2%elem_of_map_to_list.
  simpl. intros <-. f_equal.
  by rewrite <- (Hkey _ _ Hin1), <- (Hkey _ _ Hin2).
Qed.

End registryFacts.

Section Registry.
Import core registry Spec registryFacts Examples.

(** C7 as stated fails in its order clause: over the same registry, with no
    write in between, two walks of the map in different orders (each a
    legal iteration order) give the providers in different orders. *)
Lemma FindByCapability_order_counterexample :
  range_order_ok id /\ range_order_ok reverse /\
  (FindByCapability (replay history3) id "research").1
    = [coder; researcher] /\
  (FindByCapability (replay history3) reverse "research").1
    = [researcher; coder] /\
  (FindByCapability (replay history3) id "research").1
  <> (FindByCapability (replay history3) reverse "research").1.
Proof.
  split; [by intros entries|].
  split; [intros entries; apply reverse_Permutation|].
  repeat split; by vm_compute.
Qed.

(** C7, amended. For a fixed registration history, [FindByCapability]
    returns, without error, exactly the registered agents whose [Provides]
    contains the capability under exact equality, each once. Two calls
    with no write in between return the same agents; their order is that
    of the map iteration and may differ from one call to the next. *)
Theorem FindByCapability_exact (history : list write)
    (ro1 ro2 : range_order) (cap : Capability) :
  range_order_ok ro1 ->
  range_order_ok ro2 ->
  (FindByCapability (replay history) ro1 cap).2 = None /\
  (forall a,
      a ∈ (FindByCapability (replay history) ro1 cap).1 <->
      registered (replay history) a /\ cap ∈ Provides a) /\
  NoDup (FindByCapability (replay history) ro1 cap).1 /\
  (FindByCapability (replay history) ro1 cap).1
    ≡ₚ (FindByCapability (replay history) ro2 cap).1.
Proof.
  intros Hro1 Hro2. split; [done|].
  pose proof (FindByCapability_providers_of (replay history) ro1 cap Hro1)
    as H1.
  pose proof (FindByCapability_providers_of (replay history) ro2 cap Hro2)
    as H2.
  split; [|split].
  - intros a. rewrite H1. apply elem_of_providers_of.
  - rewrite H1. apply providers_of_NoDup, replay_keyed_by_ID.
  - by rewrite H1, H2.
Qed.

Lemma FindByCapability_exact_witness :
  (FindByCapability (replay history3) id "research").2 = None /\
  (forall a,
      a ∈ (FindByCapability (replay history3) id "research").1 <->
      registered (replay history3) a /\ "research" ∈ Provides a) /\
  NoDup (FindByCapability (replay history3) id "research").1 /\
  (FindByCapability (replay history3) id "research").1
    ≡ₚ (FindByCapability (replay history3) reverse "research").1.
Proof.
  apply (FindByCapability_exact history3 id reverse "research").
  - by intros entries.
  - intros entries. apply reverse_Permutation.
Defined.

(** Exact equality of capabilities: a differently cased or longer name
    does not match. *)
Example FindByCapability_exact_match :
  (FindByCapability
     (replay [DoRegister (mkAgent "a" "a" ["Research"] []);
              DoRegister (mkAgent "b" "b" ["research2"] [])])
     id "research").1 = [].
Proof. by vm_compute. Qed.

End Registry.

(** ** The injector *)

Module injectorFacts.
Import core registry Spec registryFacts mesh.

Lemma has_provider_spec r cap :
  has_provider r cap <-> exists a, registered r a /\ cap ∈ Provides a.
Proof.
  unfold has_provider. split.
  - destruct (providers_of r cap) as [|a rest] eqn:Hp; [done|]. intros _.
    exists a. apply elem_of_providers_of. rewrite Hp. apply list_elem_of_here.
  - intros (a & Ha). apply elem_of_providers_of in Ha.
    intros Hnil. rewrite Hnil in Ha. by apply not_elem_of_nil in Ha.
Qed.

Lemma FindByCapability_empty_iff r ro cap :
  range_order_ok ro ->
  length (FindByCapability r ro cap).1 = 0%nat <-> ~ has_provider r cap.
Proof.
  intros Hro. rewrite (FindByCapability_providers_of r ro cap Hro).
  unfold has_provider. destruct (providers_of r cap); simpl; split.
  - intros _ Hn. by apply Hn.
  - done.
  - done.
  - intros Hn. by destruct Hn.
Qed.

(** The loop adds, to the tools it starts with, one tool for each need
    with a provider, occurrence by occurrence and in the declared order. *)
Lemma InjectTools_range_spec {B} (i : Injector B)
    (sched : nat -> range_order) (needs : list Capability)
    (tools : list (AgentTool B)) :
  (forall k, range_order_ok (sched k)) ->
  exists new,
    InjectTools_range i sched needs tools = (tools ++ new, None) /\
    capability <$> new = filter (has_provider (inj_registry i)) needs /\
    Forall (fun t =>
              providers t ≡ₚ providers_of (inj_registry i) (capability t) /\
              tool_balancer B t = inj_balancer i /\
              tool_cycleDetector B t = inj_cycleDetector i) new.
Proof.
  revert sched tools. induction needs as [|need rest IH]; intros sched tools Hs.
  - exists []. simpl. by rewrite app_nil_r.
  - cbn [InjectTools_range].
    pose proof (FindByCapability_empty_iff (inj_registry i) (sched 0%nat)
                  need (Hs 0%nat)) as Hempty.
    pose proof (FindByCapability_providers_of (inj_registry i) (sched 0%nat)
                  need (Hs 0%nat)) as Hperm.
    destruct (FindByCapability (inj_registry i) (sched 0%nat) need)
      as [found err] eqn:Hfind.
    assert (err = None) as -> by (unfold FindByCapability in Hfind; congruence).
    cbn [fst] in *. rewrite filter_cons.
    destruct (decide (length found = 0%nat)) as [Hlen|Hlen].
    + destruct (IH (fun k => sched (S k)) tools) as (new & -> & Hcaps & Hall);
        [intros k; apply Hs|].
      exists new. rewrite decide_False by by apply Hempty. done.
    + destruct (IH (fun k => sched (S k))
                  (tools ++ [mkAgentTool need found (inj_balancer i)
                               (inj_cycleDetector i)]))
        as (new & -> & Hcaps & Hall); [intros k; apply Hs|].
      exists (mkAgentTool need found (inj_balancer i) (inj_cycleDetector i)
              :: new).
      rewrite decide_True by (apply dec_stable; by rewrite <- Hempty).
      split; [by rewrite <- app_assoc|]. split; [simpl; by f_equal|].
      by constructor.
Qed.

End injectorFacts.

Section Injector.
Import core registry Spec registryFacts mesh injectorFacts Examples.

(** C5 as stated fails in its collapse clause: an agent that declares the
    same need twice gets two tools of the same name, where the claim
    promises one per distinct capability. *)
Lemma InjectTools_duplicate_counterexample :
  ToolName <$> (InjectTools injector3 (fun _ => id) writer_twice).1
    = ["delegate_to_research"; "delegate_to_research"] /\
  (InjectTools injector3 (fun _ => id) writer_twice).2 = None /\
  remove_dups (Needs writer_twice) = ["research"] /\
  ~ NoDup (ToolName <$> (InjectTools injector3 (fun _ => id) writer_twice).1).
Proof.
  assert (ToolName <$> (InjectTools injector3 (fun _ => id) writer_twice).1
          = ["delegate_to_research"; "delegate_to_research"]) as Hnames
    by by vm_compute.
  split; [exact Hnames|]. split; [by vm_compute|]. split; [by vm_compute|].
  rewrite Hnames. intros Hnd. apply NoDup_cons in Hnd as [Hnotin _].
  apply Hnotin, list_elem_of_here.
Qed.

(** C5, amended. [InjectTools] never fails over the local registry and
    produces one delegation tool for each occurrence, in declared order,
    of a capability in the agent's [Needs] that has at least one
    registered provider; a capability declared twice gets two tools. Each
    tool is named ["delegate_to_"] followed by its capability and is bound
    to exactly the registered providers of that capability. A need with no
    provider is skipped, with no tool and no error. *)
Theorem InjectTools_per_need {B : Type} (i : Injector B)
    (sched : nat -> range_order) (agent : Agent) :
  (forall k, range_order_ok (sched k)) ->
  exists tools,
    InjectTools i sched agent = (tools, None) /\
    capability <$> tools
      = filter (has_provider (inj_registry i)) (Needs agent) /\
    ToolName <$> tools
      = (fun need => "delegate_to_" +:+ need)
          <$> filter (has_provider (inj_registry i)) (Needs agent) /\
    Forall (fun t =>
              has_provider (inj_registry i) (capability t) /\
              providers t ≡ₚ providers_of (inj_registry i) (capability t))
      tools.
Proof.
  intros Hs. unfold InjectTools.
  destruct (InjectTools_range_spec i sched (Needs agent) [] Hs)
    as (tools & -> & Hcaps & Hall).
  exists tools. simpl. split; [done|]. split; [done|]. split.
  - rewrite <- Hcaps, <- list_fmap_compose. by apply list_fmap_ext.
  - apply Forall_forall. intros t Ht. split.
    + assert (capability t ∈ capability <$> tools) as Hin
        by (apply list_elem_of_fmap; by exists t).
      rewrite Hcaps in Hin. by apply list_elem_of_filter in Hin as [? _].
    + by apply (proj1 (Forall_forall _ _) Hall t Ht).
Qed.

(** Needs research, analysis, coding, research over a registry where
    research and coding have providers and analysis has none: three
    tools, research twice. *)
Lemma InjectTools_per_need_witness :
  exists tools,
    InjectTools injector3 (fun _ => id) writer_mixed = (tools, None) /\
    capability <$> tools
      = filter (has_provider (inj_registry injector3)) (Needs writer_mixed) /\
    ToolName <$> tools
      = (fun need => "delegate_to_" +:+ need)
          <$> filter (has_provider (inj_registry injector3))
                (Needs writer_mixed) /\
    Forall (fun t =>
              has_provider (inj_registry injector3) (capability t) /\
              providers t
                ≡ₚ providers_of (inj_registry injector3) (capability t))
      tools.
Proof.
  apply (InjectTools_per_need injector3 (fun _ => id) writer_mixed).
  by intros k entries.
Defined.

Example InjectTools_mixed_names :
  ToolName <$> (InjectTools injector3 (fun _ => id) writer_mixed).1
  = ["delegate_to_research"; "delegate_to_coding"; "delegate_to_research"].
Proof. by vm_compute. Qed.

(** The scenarios of the writer and the researcher. *)
Example InjectTools_writer :
  ToolName <$> (InjectTools injector3 (fun _ => id) writer).1
  = ["delegate_to_research"].
Proof. by vm_compute. Qed.

Example InjectTools_no_provider :
  InjectTools
    (NewInjector NewLocal NewRoundRobinBalancer (NewCycleDetector 10))
    (fun _ => id) writer
  = ([], None).
Proof. by vm_compute. Qed.

End Injector.

(** * Further properties of the delegation core *)

(** ** The execution context and the guard, continued *)

Module contextMoreFacts.
Import Mem MemFacts core coreFacts mesh Spec SpecMore guardFacts.

Lemma TraceID_WithValue_chain ctx v :
  TraceID (WithValue ctx callChainKey v) = TraceID ctx.
Proof. reflexivity. Qed.

Lemma TraceID_WithHopCount ctx : TraceID (WithHopCount ctx) = TraceID ctx.
Proof. reflexivity. Qed.

(** One [WithCallChain] on a valid context. *)
Lemma WithCallChain_inv h ctx agentID ctx' h' :
  ctx_valid h ctx ->
  WithCallChain ctx agentID h = Ok (ctx', h') ->
  h' = h ++ [chain_of h ctx ++ [agentID]] /\
  chain_of h' ctx' = chain_of h ctx ++ [agentID] /\
  ctx_valid h' ctx' /\
  HopCount ctx' = HopCount ctx /\
  TraceID ctx' = TraceID ctx.
Proof.
  intros Hv Hrun. rewrite WithCallChain_run in Hrun by done.
  injection Hrun as <- <-. split; [done|].
  unfold chain_of, ctx_valid. rewrite CallChain_WithValue_chain.
  assert (length (chain_of h ctx ++ [agentID]) = (len (CallChain ctx) + 1)%nat)
    as Hlen.
  { rewrite length_app. unfold chain_of. rewrite elems_length by done.
    simpl. lia. }
  split; [by apply elems_fresh|]. split; [|done].
  simpl. eexists. split; [|exact Hlen]. by apply list_lookup_middle.
Qed.

(** Along a run of extensions each step allocates one array: the final
    chain is the old one followed by the IDs, every step is related by [P],
    and what was valid in the starting heap reads the same at the end. *)
Lemma extend_all_frame (step : Context -> string -> M Context)
    (P : Context -> Context -> Prop) :
  (forall h ctx id,
      ctx_valid h ctx ->
      exists ctx', step ctx id h = Ok (ctx', h ++ [chain_of h ctx ++ [id]]) /\
                   chain_of (h ++ [chain_of h ctx ++ [id]]) ctx'
                     = chain_of h ctx ++ [id] /\
                   ctx_valid (h ++ [chain_of h ctx ++ [id]]) ctx' /\
                   P ctx ctx') ->
  forall ids h ctx,
    ctx_valid h ctx ->
    exists ctx' h',
      extend_all step ctx ids h = Ok (ctx', h') /\
      chain_of h' ctx' = chain_of h ctx ++ ids /\
      ctx_valid h' ctx' /\
      nsteps P (length ids) ctx ctx' /\
      (forall s, slice_valid h s -> slice_valid h' s /\ elems h' s = elems h s).
Proof.
  intros Hstep ids.
  induction ids as [|id rest IH]; intros h ctx Hv.
  - exists ctx, h. simpl. rewrite app_nil_r. repeat split; try done.
    constructor.
  - destruct (Hstep h ctx id Hv) as (ctx1 & Hrun & Hchain & Hv1 & HP).
    destruct (IH _ ctx1 Hv1) as (ctx' & h' & Hrest & Hchain' & Hv' & HP' & Hfr).
    exists ctx', h'. cbn [extend_all].
    unfold mbind, M_bind, bind. rewrite Hrun. split; [exact Hrest|].
    split; [by rewrite Hchain', Hchain, <- app_assoc|].
    split; [done|]. split; [by econstructor|].
    intros s Hs.
    destruct (Hfr s (slice_valid_app _ _ _ Hs)) as [Hs' Hel].
    split; [done|]. by rewrite Hel, elems_app.
Qed.

Lemma nsteps_preserved {A} (P : Context -> Context -> Prop)
    (f : Context -> A) n a b :
  (forall x y, P x y -> f y = f x) -> nsteps P n a b -> f b = f a.
Proof.
  intros Hp Hn. induction Hn as [|n x y z Hxy _ IH]; [done|].
  rewrite IH. by apply Hp.
Qed.

Lemma nsteps_hops (P : Context -> Context -> Prop) n a b :
  (forall x y, P x y -> HopCount y = GoInt.int_add (HopCount x) 1) ->
  nsteps P n a b ->
  GoInt.is_int (HopCount a) ->
  HopCount a + Z.of_nat n <= GoInt.int_max ->
  HopCount b = HopCount a + Z.of_nat n.
Proof.
  intros Hp Hn. induction Hn as [|n x y z Hxy _ IH]; intros Hint Hmax.
  - lia.
  - assert (HopCount y = HopCount x + 1) as Hy.
    { rewrite (Hp _ _ Hxy). apply GoIntFacts.int_add_1_exact; [done|lia]. }
    rewrite IH; [lia| |lia].
    rewrite Hy. unfold GoInt.is_int, GoInt.int_min, GoInt.int_max in *. lia.
Qed.

(** A run of [PrepareContext] steps on a valid context. *)
Lemma PrepareContext_all_run cd ids h ctx :
  ctx_valid h ctx ->
  exists ctx' h',
    PrepareContext_all cd ctx ids h = Ok (ctx', h') /\
    chain_of h' ctx' = chain_of h ctx ++ ids /\
    ctx_valid h' ctx' /\
    nsteps (fun a b => HopCount b = GoInt.int_add (HopCount a) 1 /\
                       TraceID b = TraceID a) (length ids) ctx ctx' /\
    (forall s, slice_valid h s -> slice_valid h' s /\ elems h' s = elems h s).
Proof.
  apply extend_all_frame. intros h0 ctx0 id Hv0.
  destruct (PrepareContext cd ctx0 id h0) as [[ctx1 h1]|] eqn:Hrun;
    [|by rewrite PrepareContext_run in Hrun].
  pose proof Hrun as Hrun'. rewrite PrepareContext_run in Hrun' by done.
  injection Hrun' as Hc _.
  destruct (PrepareContext_inv _ _ _ _ _ _ Hv0 Hrun) as (-> & ? & ? & ?).
  exists ctx1. repeat split; try done. by rewrite <- Hc.
Qed.

End contextMoreFacts.

Section ContextMore.
Import Mem MemFacts core coreFacts mesh Spec SpecMore guardFacts Examples.
Import contextMoreFacts.

(** X1. Calling [WithCallChain] for each ID of a list in turn, from a
    context whose chain is valid in the heap, never panics and yields a
    context whose chain is the old chain followed by the list, in order.
    The hop count and the trace ID are what they were, and the chain of
    the starting context still reads the same in the final heap. *)
Theorem WithCallChain_all_appends (h : heap) (ctx : Context)
    (ids : list string) :
  ctx_valid h ctx ->
  exists ctx' h',
    WithCallChain_all ctx ids h = Ok (ctx', h') /\
    chain_of h' ctx' = chain_of h ctx ++ ids /\
    HopCount ctx' = HopCount ctx /\
    TraceID ctx' = TraceID ctx /\
    chain_of h' ctx = chain_of h ctx.
Proof.
  intros Hv.
  destruct (extend_all_frame WithCallChain
              (fun a b => HopCount b = HopCount a /\ TraceID b = TraceID a))
    with (ids := ids) (h := h) (ctx := ctx)
    as (ctx' & h' & Hrun & Hchain & _ & Hsteps & Hframe); try done.
  - intros h0 ctx0 id Hv0.
    destruct (WithCallChain ctx0 id h0) as [[ctx1 h1]|] eqn:Hrun;
      [|by rewrite WithCallChain_run in Hrun].
    destruct (WithCallChain_inv _ _ _ _ _ Hv0 Hrun) as (-> & ? & ? & ? & ?).
    by exists ctx1.
  - exists ctx', h'. split; [done|]. split; [done|].
    split; [|split].
    + eapply (nsteps_preserved _ HopCount); [|exact Hsteps]. by intros x y [? _].
    + eapply (nsteps_preserved _ TraceID); [|exact Hsteps]. by intros x y [_ ?].
    + by apply Hframe.
Qed.

Lemma WithCallChain_all_appends_witness :
  exists ctx' h',
    WithCallChain_all stA.1 ["agent-2"; "agent-3"] stA.2 = Ok (ctx', h') /\
    chain_of h' ctx' = chain_of stA.2 stA.1 ++ ["agent-2"; "agent-3"] /\
    HopCount ctx' = HopCount stA.1 /\
    TraceID ctx' = TraceID stA.1 /\
    chain_of h' stA.1 = chain_of stA.2 stA.1.
Proof.
  apply (WithCallChain_all_appends stA.2 stA.1 ["agent-2"; "agent-3"]).
  exists ["A"]. split; reflexivity.
Defined.

(** X2. [n] calls of [WithHopCount] raise the hop count by exactly [n] as
    long as the result stays within the [int] range, and leave the call
    chain header and the trace ID alone. *)
Theorem WithHopCount_times_adds (n : nat) (ctx : Context) :
  GoInt.is_int (HopCount ctx) ->
  HopCount ctx + Z.of_nat n <= GoInt.int_max ->
  HopCount (WithHopCount_times n ctx) = HopCount ctx + Z.of_nat n /\
  CallChain (WithHopCount_times n ctx) = CallChain ctx /\
  TraceID (WithHopCount_times n ctx) = TraceID ctx.
Proof.
  intros Hint. unfold WithHopCount_times.
  induction n as [|n IH]; intros Hmax.
  - simpl. split; [lia|done].
  - destruct IH as (Hhop & Hchain & Htrace); [lia|].
    rewrite Nat.iter_succ, HopCount_WithHopCount, CallChain_WithHopCount.
    rewrite TraceID_WithHopCount, Hhop.
    split; [|done]. rewrite GoIntFacts.int_add_1_exact.
    + lia.
    + unfold GoInt.is_int, GoInt.int_min, GoInt.int_max in *. lia.
    + lia.
Qed.

Lemma WithHopCount_times_adds_witness :
  HopCount (WithHopCount_times 3 Background) = HopCount Background + Z.of_nat 3 /\
  CallChain (WithHopCount_times 3 Background) = CallChain Background /\
  TraceID (WithHopCount_times 3 Background) = TraceID Background.
Proof.
  apply (WithHopCount_times_adds 3 Background).
  - split; by vm_compute.
  - by vm_compute.
Defined.

(** X3. The outcome of [Check] is decided by two facts alone: it is the
    cycle error exactly when the candidate is in the chain, the hop-budget
    error exactly when the candidate is not in the chain and the hop count
    has reached [maxHops], and [nil] exactly when the candidate is not in
    the chain and the hop count is below [maxHops]. *)
Theorem Check_outcome (cd : CycleDetector) (h : heap) (ctx : Context)
    (agentID : string) :
  (Check cd ctx agentID h = Some ErrCycleDetected <->
     agentID ∈ chain_of h ctx) /\
  (Check cd ctx agentID h = Some ErrMaxHopsExceeded <->
     (agentID ∉ chain_of h ctx) /\ HopCount ctx >= maxHops cd) /\
  (Check cd ctx agentID h = None <->
     (agentID ∉ chain_of h ctx) /\ HopCount ctx < maxHops cd).
Proof.
  destruct (decide (agentID ∈ chain_of h ctx)) as [Hin|Hnotin].
  - rewrite (Check_in_chain cd h ctx agentID Hin). repeat split; try done.
    + by intros [? _].
    + by intros [? _].
  - rewrite (Check_not_in_chain cd h ctx agentID Hnotin).
    destruct (decide (HopCount ctx >= maxHops cd)); repeat split;
      try done; try lia; try (intros [_ ?]; lia).
Qed.

(** X4. A run of [PrepareContext] steps from a valid context, one for each
    ID of a list, never panics: the chain is the old one followed by the
    IDs, the hop count has grown by their number (while it stays within
    the [int] range), the trace ID is kept, and the starting context still
    reads the same chain. *)
Theorem PrepareContext_all_extends (cd : CycleDetector) (h : heap)
    (ctx : Context) (ids : list string) :
  ctx_valid h ctx ->
  GoInt.is_int (HopCount ctx) ->
  HopCount ctx + Z.of_nat (length ids) <= GoInt.int_max ->
  exists ctx' h',
    PrepareContext_all cd ctx ids h = Ok (ctx', h') /\
    chain_of h' ctx' = chain_of h ctx ++ ids /\
    HopCount ctx' = HopCount ctx + Z.of_nat (length ids) /\
    TraceID ctx' = TraceID ctx /\
    chain_of h' ctx = chain_of h ctx.
Proof.
  intros Hv Hint Hmax.
  destruct (PrepareContext_all_run cd ids h ctx Hv)
    as (ctx' & h' & Hrun & Hchain & _ & Hsteps & Hframe).
  exists ctx', h'. split; [done|]. split; [done|]. split; [|split].
  - eapply nsteps_hops; [|exact Hsteps|done|done]. by intros x y [? _].
  - eapply (nsteps_preserved _ TraceID); [|exact Hsteps]. by intros x y [_ ?].
  - by apply Hframe.
Qed.

Lemma PrepareContext_all_extends_witness :
  exists ctx' h',
    PrepareContext_all cd3 stA.1 ["B"; "C"] stA.2 = Ok (ctx', h') /\
    chain_of h' ctx' = chain_of stA.2 stA.1 ++ ["B"; "C"] /\
    HopCount ctx' = HopCount stA.1 + Z.of_nat (length ["B"; "C"]) /\
    TraceID ctx' = TraceID stA.1 /\
    chain_of h' stA.1 = chain_of stA.2 stA.1.
Proof.
  apply (PrepareContext_all_extends cd3 stA.2 stA.1 ["B"; "C"]).
  - exists ["A"]. split; reflexivity.
  - split; by vm_compute.
  - by vm_compute.
Defined.

(** X5. A refusal for a cycle is permanent: once an agent ID is in a
    context's chain, [Check] returns the cycle error for it in every
    context obtained by further [PrepareContext] steps, however many and
    for whatever IDs. *)
Theorem Check_cycle_persists (cd : CycleDetector) (h : heap) (ctx : Context)
    (X : string) (ids : list string) :
  ctx_valid h ctx ->
  X ∈ chain_of h ctx ->
  exists ctx' h',
    PrepareContext_all cd ctx ids h = Ok (ctx', h') /\
    Check cd ctx' X h' = Some ErrCycleDetected.
Proof.
  intros Hv Hin.
  destruct (PrepareContext_all_run cd ids h ctx Hv)
    as (ctx' & h' & Hrun & Hchain & _).
  exists ctx', h'. split; [done|].
  apply Check_in_chain. rewrite Hchain. apply elem_of_app. by left.
Qed.

Lemma Check_cycle_persists_witness :
  exists ctx' h',
    PrepareContext_all cd3 stA.1 ["B"; "C"] stA.2 = Ok (ctx', h') /\
    Check cd3 ctx' "A" h' = Some ErrCycleDetected.
Proof.
  apply (Check_cycle_persists cd3 stA.2 stA.1 "A" ["B"; "C"]).
  - exists ["A"]. split; reflexivity.
  - apply list_elem_of_here.
Defined.

(** X6. An exhausted hop budget is permanent: from a context whose hop
    count has reached [maxHops], every context obtained by further
    [PrepareContext] steps is refused by [Check] for every candidate (the
    hop count staying within the [int] range). *)
Theorem Check_budget_persists (cd : CycleDetector) (h : heap) (ctx : Context)
    (ids : list string) (candidate : string) :
  ctx_valid h ctx ->
  GoInt.is_int (HopCount ctx) ->
  HopCount ctx + Z.of_nat (length ids) <= GoInt.int_max ->
  HopCount ctx >= maxHops cd ->
  exists ctx' h',
    PrepareContext_all cd ctx ids h = Ok (ctx', h') /\
    Check cd ctx' candidate h' <> None.
Proof.
  intros Hv Hint Hmax Hfull.
  destruct (PrepareContext_all_run cd ids h ctx Hv)
    as (ctx' & h' & Hrun & _ & _ & Hsteps & _).
  exists ctx', h'. split; [done|].
  assert (HopCount ctx' = HopCount ctx + Z.of_nat (length ids)) as Hhop.
  { eapply nsteps_hops; [|exact Hsteps|done|done]. by intros x y [? _]. }
  intros Hok. apply Check_None in Hok as [_ Hlt]. lia.
Qed.

Lemma Check_budget_persists_witness :
  exists ctx' h',
    PrepareContext_all cd3 stABC.1 ["D"] stABC.2 = Ok (ctx', h') /\
    Check cd3 ctx' "E" h' <> None.
Proof.
  apply (Check_budget_persists cd3 stABC.2 stABC.1 ["D"] "E").
  - exists ["A"; "B"; "C"]. split; reflexivity.
  - split; by vm_compute.
  - by vm_compute.
  - by vm_compute.
Defined.

End ContextMore.

(** ** The registry, continued *)

Module registryMoreFacts.
Import core registry Spec SpecMore registryFacts.

Lemma apply_write_lookup r w agentID :
  agents (apply_write r w) !! agentID =
    if decide (write_id w = agentID)
    then match w with
         | DoRegister agent => Some agent
         | DoDeregister _ => None
         end
    else agents r !! agentID.
Proof.
  destruct w as [agent|k]; simpl.
  - destruct (decide (ID agent = agentID)) as [<-|Hne].
    + by rewrite lookup_insert_eq.
    + by rewrite lookup_insert_ne.
  - destruct (decide (k = agentID)) as [<-|Hne].
    + by rewrite lookup_delete_eq.
    + by rewrite lookup_delete_ne.
Qed.

(** The entry under an ID after a history of writes is decided by the last
    write about that ID. *)
Lemma apply_writes_lookup r history agentID :
  agents (apply_writes r history) !! agentID =
    match last_write history agentID with
    | Some (DoRegister agent) => Some agent
    | Some (DoDeregister _) => None
    | None => agents r !! agentID
    end.
Proof.
  unfold apply_writes, last_write.
  induction history as [|w history IH] using rev_ind; [done|].
  rewrite foldl_app, filter_app. cbn [foldl].
  rewrite apply_write_lookup, filter_cons, filter_nil.
  destruct (decide (write_id w = agentID)) as [Hw|Hw].
  - rewrite last_snoc. by destruct w.
  - by rewrite app_nil_r.
Qed.

Lemma List_range_values entries result :
  List_range entries result = result ++ entries.*2.
Proof.
  revert result. induction entries as [|[k agent] rest IH]; intros result.
  - simpl. by rewrite app_nil_r.
  - cbn [List_range fmap list_fmap snd]. rewrite IH. by rewrite <- app_assoc.
Qed.

Lemma List_values r ro :
  range_order_ok ro -> (List r ro).1 ≡ₚ (map_to_list (agents r)).*2.
Proof.
  intros Hro. unfold List. cbn [fst]. rewrite List_range_values. simpl.
  by rewrite (Hro (map_to_list (agents r))).
Qed.

Lemma apply_writes_keyed r history :
  keyed_by_ID r -> keyed_by_ID (apply_writes r history).
Proof.
  unfold apply_writes. revert r.
  induction history as [|w history IH]; intros r Hr; [done|].
  simpl. apply IH. intros k a. rewrite apply_write_lookup.
  destruct (decide (write_id w = k)) as [<-|Hne]; [|apply Hr].
  destruct w as [agent|k']; [|done]. by intros [= <-].
Qed.

End registryMoreFacts.

Section RegistryMore.
Import core registry Spec SpecMore registryFacts registryMoreFacts Examples.

(** X7. After any history of registrations and deregistrations, [Get]
    answers by the last write about the ID: the agent of that write when it
    is a registration (a later registration under the same ID replaces an
    earlier one), the not-found error when it is a deregistration or when
    there is no write about the ID at all. *)
Theorem Get_last_write (history : list write) (agentID : string) :
  Get (replay history) agentID =
    match last_write history agentID with
    | Some (DoRegister agent) => (Some agent, None)
    | _ => (None, Some ErrAgentNotFound)
    end.
Proof.
  unfold Get.
  change (replay history) with (apply_writes NewLocal history).
  rewrite apply_writes_lookup.
  destruct (last_write history agentID) as [[agent|k]|]; try done.
Qed.

(** X8. For a fixed registration history, [List] returns, without error,
    exactly the registered agents, each once: as many as there are
    registered IDs. Two calls with no write in between return the same
    agents, in an order that may differ. *)
Theorem List_exact (history : list write) (ro1 ro2 : range_order) :
  range_order_ok ro1 ->
  range_order_ok ro2 ->
  (List (replay history) ro1).2 = None /\
  (forall a, a ∈ (List (replay history) ro1).1 <-> registered (replay history) a) /\
  NoDup (List (replay history) ro1).1 /\
  length (List (replay history) ro1).1 = size (agents (replay history)) /\
  (List (replay history) ro1).1 ≡ₚ (List (replay history) ro2).1.
Proof.
  intros Hro1 Hro2. split; [done|].
  pose proof (List_values (replay history) ro1 Hro1) as H1.
  pose proof (List_values (replay history) ro2 Hro2) as H2.
  split; [|split; [|split]].
  - intros a. rewrite H1, list_elem_of_fmap. unfold registered. split.
    + intros ([k a'] & -> & Hin). exists k. by apply elem_of_map_to_list in Hin.
    + intros [k Hk]. exists (k, a). split; [done|]. by apply elem_of_map_to_list.
  - rewrite H1.
    apply NoDup_fmap_2_strong; [|apply NoDup_map_to_list].
    intros [k1 a1] [k2 a2] Hin1%elem_of_map_to_list Hin2%elem_of_map_to_list.
    simpl. intros <-. f_equal.
    pose proof (replay_keyed_by_ID history) as Hkey.
    by rewrite <- (Hkey _ _ Hin1), <- (Hkey _ _ Hin2).
  - rewrite H1, length_fmap. apply length_map_to_list.
  - by rewrite H1, H2.
Qed.

Lemma List_exact_witness :
  (List (replay history3) id).2 = None /\
  (forall a, a ∈ (List (replay history3) id).1 <-> registered (replay history3) a) /\
  NoDup (List (replay history3) id).1 /\
  length (List (replay history3) id).1 = size (agents (replay history3)) /\
  (List (replay history3) id).1 ≡ₚ (List (replay history3) reverse).1.
Proof.
  apply (List_exact history3 id reverse).
  - by intros entries.
  - intros entries. apply reverse_Permutation.
Defined.

(** X9. Registering an agent whose ID is already registered replaces the
    entry and leaves the number of listed agents as it was; registering a
    new ID adds one. Deregistering an ID that is not registered changes
    nothing and is no error. *)
Theorem Register_count (r : Local) (agent : Agent) (agentID : string)
    (ro ro' : range_order) :
  range_order_ok ro ->
  range_order_ok ro' ->
  length (List (Register r agent).1 ro').1 =
    (if decide (is_Some (agents r !! ID agent))
     then length (List r ro).1
     else S (length (List r ro).1)) /\
  (agents r !! agentID = None -> Deregister r agentID = (r, None)).
Proof.
  intros Hro Hro'. split.
  - assert (forall r0 ro0, range_order_ok ro0 ->
                length (List r0 ro0).1 = size (agents r0)) as Hlen.
    { intros r0 ro0 H0. rewrite (List_values r0 ro0 H0).
      by rewrite length_fmap, length_map_to_list. }
    rewrite !Hlen by done. simpl.
    destruct (decide (is_Some (agents r !! ID agent))) as [[old Hold]|Hnone].
    + apply map_size_insert_Some. by exists old.
    + apply map_size_insert_None. by apply eq_None_not_Some.
  - intros Hnone. unfold Deregister. destruct r as [m]. simpl in *.
    by rewrite delete_id.
Qed.

Lemma Register_count_witness :
  length (List (Register (replay history3) coder).1 reverse).1 =
    (if decide (is_Some (agents (replay history3) !! ID coder))
     then length (List (replay history3) id).1
     else S (length (List (replay history3) id).1)) /\
  (agents (replay history3) !! "nobody" = None ->
   Deregister (replay history3) "nobody" = (replay history3, None)).
Proof.
  apply (Register_count (replay history3) coder "nobody" id reverse).
  - by intros entries.
  - intros entries. apply reverse_Permutation.
Defined.

(** X10. A write shows in the next [FindByCapability]: after registering an
    agent, the providers of a capability are that agent, if it declares
    the capability, and the former providers with another ID; after
    deregistering an ID they are the former providers with another ID. *)
Theorem FindByCapability_after_write (history : list write) (w : write)
    (ro ro' : range_order) (cap : Capability) (b : Agent) :
  range_order_ok ro ->
  range_order_ok ro' ->
  b ∈ (FindByCapability (replay (history ++ [w])) ro' cap).1 <->
    match w with
    | DoRegister agent =>
        (b = agent /\ cap ∈ Provides agent) \/
        (b ∈ (FindByCapability (replay history) ro cap).1 /\ ID b <> ID agent)
    | DoDeregister agentID =>
        b ∈ (FindByCapability (replay history) ro cap).1 /\ ID b <> agentID
    end.
Proof.
  intros Hro Hro'.
  pose proof (replay_keyed_by_ID history) as Hkey.
  assert (forall r0 ro0, range_order_ok ro0 ->
            (b ∈ (FindByCapability r0 ro0 cap).1 <->
             (exists k, agents r0 !! k = Some b) /\ cap ∈ Provides b)) as Hfind.
  { intros r0 ro0 H0. rewrite (FindByCapability_providers_of r0 ro0 cap H0).
    apply elem_of_providers_of. }
  assert (replay (history ++ [w]) = apply_write (replay history) w) as ->
    by (unfold replay; by rewrite foldl_app).
  rewrite (Hfind _ ro' Hro').
  destruct w as [agent|k']; rewrite (Hfind _ ro Hro); split.
  - intros [[k Hk] Hcap]. rewrite apply_write_lookup in Hk. simpl in Hk.
    destruct (decide (ID agent = k)) as [Hw|Hw].
    + injection Hk as ->. by left.
    + right. pose proof (Hkey _ _ Hk) as Hid. subst k.
      split; [|congruence]. split; [by eexists|done].
  - intros [[-> Hcap]|[[[k Hk] Hcap] Hne]].
    + split; [|done]. exists (ID agent). rewrite apply_write_lookup.
      simpl. by rewrite decide_True.
    + split; [|done]. exists k. rewrite apply_write_lookup. simpl.
      rewrite decide_False; [done|].
      rewrite <- (Hkey _ _ Hk). congruence.
  - intros [[k Hk] Hcap]. rewrite apply_write_lookup in Hk. simpl in Hk.
    destruct (decide (k' = k)) as [Hw|Hw]; [done|].
    pose proof (Hkey _ _ Hk) as Hid. subst k.
    split; [|congruence]. split; [by eexists|done].
  - intros [[[k Hk] Hcap] Hne].
    split; [|done]. exists k. rewrite apply_write_lookup. simpl.
    rewrite decide_False; [done|].
    rewrite <- (Hkey _ _ Hk). congruence.
Qed.

Lemma FindByCapability_after_write_witness :
  researcher ∈ (FindByCapability
                  (replay ([DoRegister researcher; DoRegister coder]
                           ++ [DoDeregister "coder"])) reverse "research").1 <->
  researcher ∈ (FindByCapability
                  (replay [DoRegister researcher; DoRegister coder])
                  id "research").1 /\
  ID researcher <> "coder".
Proof.
  apply (FindByCapability_after_write
           [DoRegister researcher; DoRegister coder] (DoDeregister "coder")
           id reverse "research" researcher).
  - by intros entries.
  - intros entries. apply reverse_Permutation.
Defined.

End RegistryMore.

(** ** The balancers, continued *)

Module balancerMoreFacts.
Import core mesh Spec balancerFacts.

(** [k] round-robin calls from any counter value: call number [i] returns
    the agent at the wrapped counter value modulo the length. *)
Lemma Select_times_wrap (k : nat) (b : RoundRobinBalancer)
    (agents : list Agent) :
  GoInt.is_uint64 (counter b) ->
  agents ≠ [] ->
  (Select_times k b agents).1 =
    (fun i : nat =>
       outcome_map Some
         (index agents
            (GoInt.wrap_uint64 (counter b + Z.of_nat i)
               `mod` Z.of_nat (length agents))))
      <$> seq 0 k.
Proof.
  revert b. induction k as [|k IH]; intros [c] Hc Hne; [done|].
  cbn [Select_times counter] in *.
  rewrite RoundRobin_Select_run by done. cbn [counter].
  specialize (IH {| counter := GoInt.uint64_add c 1 |}).
  destruct (Select_times k {| counter := GoInt.uint64_add c 1 |} agents)
    as [rs b''] eqn:Hrest.
  cbn [fst seq fmap list_fmap] in *.
  rewrite Z.add_0_r, GoIntFacts.wrap_uint64_id by done. f_equal.
  rewrite IH; [|apply GoIntFacts.wrap_uint64_is_uint64|done].
  rewrite <- fmap_S_seq, <- list_fmap_compose.
  apply list_fmap_ext. intros _ i _. simpl. do 3 f_equal.
  unfold GoInt.uint64_add, GoInt.wrap_uint64.
  rewrite Zplus_mod_idemp_l. f_equal. lia.
Qed.

Lemma AnyBalancer_Select_empty (b : MeshFacade.AnyBalancer) :
  Select b [] = (Ok None, b).
Proof. by destruct b as [rr|rnd|[]]. Qed.

End balancerMoreFacts.

Section BalancersMore.
Import core mesh Spec balancerFacts balancerMoreFacts Examples.

(** X11. When the number of candidates is a power of two (so that it
    divides 2^64), the round-robin cycle is exact from every counter
    value, the wrap-around of the counter included: [N] consecutive calls
    return the list rotated by the starting counter value, each candidate
    once. *)
Theorem RoundRobin_power_of_two (b : RoundRobinBalancer)
    (agents : list Agent) (k : Z) :
  GoInt.is_uint64 (counter b) ->
  0 <= k <= 64 ->
  Z.of_nat (length agents) = 2 ^ k ->
  (Select_times (length agents) b agents).1
    = (fun a => Ok (Some a)) <$> rotate (Z.to_nat (counter b)) agents /\
  (Select_times (length agents) b agents).1
    ≡ₚ (fun a => Ok (Some a)) <$> agents.
Proof.
  intros Hc Hk Hlen.
  assert (agents ≠ []) as Hne.
  { intros ->. simpl in Hlen. pose proof (Z.pow_pos_nonneg 2 k). lia. }
  assert ((Select_times (length agents) b agents).1
          = (fun a => Ok (Some a)) <$> rotate (Z.to_nat (counter b)) agents)
    as Hrun.
  { rewrite Select_times_wrap by done.
    rewrite <- rr_picks_rotate by (unfold GoInt.is_uint64 in Hc; lia).
    unfold rr_picks. apply list_fmap_ext. intros _ i _. simpl. do 2 f_equal.
    unfold GoInt.wrap_uint64, GoInt.uint64_mod. rewrite Hlen.
    apply Z.mod_mod_divide.
    exists (2 ^ (64 - k)). rewrite <- Z.pow_add_r by lia. f_equal. lia. }
  split; [exact Hrun|]. rewrite Hrun. by rewrite rotate_Permutation.
Qed.

(** Four candidates, started one call before the counter wraps. *)
Lemma RoundRobin_power_of_two_witness :
  (Select_times 4 {| counter := 2 ^ 64 - 1 |}
     [agent1; agent2; agent3; agent1]).1
    = (fun a => Ok (Some a))
        <$> rotate (Z.to_nat (2 ^ 64 - 1)) [agent1; agent2; agent3; agent1] /\
  (Select_times 4 {| counter := 2 ^ 64 - 1 |}
     [agent1; agent2; agent3; agent1]).1
    ≡ₚ (fun a => Ok (Some a)) <$> [agent1; agent2; agent3; agent1].
Proof.
  apply (RoundRobin_power_of_two {| counter := 2 ^ 64 - 1 |}
           [agent1; agent2; agent3; agent1] 2).
  - split; by vm_compute.
  - lia.
  - reflexivity.
Defined.

(** X12. [Select] panics in one situation only: the random policy on a
    non-empty list whose randomness function is [nil] or answers outside
    [[0, n)]. Round-robin and first never panic, whatever the counter. *)
Theorem Select_panics_iff (agents : list Agent) (rr : RoundRobinBalancer)
    (rnd : RandomBalancer) (first : FirstBalancer) :
  (Select rr agents).1 <> Panic /\
  (Select first agents).1 <> Panic /\
  ((Select rnd agents).1 = Panic <->
     agents ≠ [] /\
     match randFunc rnd with
     | None => True
     | Some f =>
         ~ (0 <= f (Z.of_nat (length agents)) < Z.of_nat (length agents))
     end).
Proof.
  unfold Select, RoundRobin_Select, First_Select, Random_Select.
  destruct (decide (length agents = 0%nat)) as [Hlen|Hlen].
  - assert (agents = []) as -> by by destruct agents.
    cbn [fst]. repeat split; try done. by intros [? _].
  - assert (agents ≠ []) as Hne by (intros ->; done).
    cbn [fst]. split; [|split].
    + set (idx := GoInt.uint64_sub _ 1).
      assert (0 <= idx `mod` Z.of_nat (length agents) < Z.of_nat (length agents))
        as Hr by (apply Z.mod_pos_bound; lia).
      by destruct (index_lookup agents _ Hr) as (a & -> & _).
    + assert (0 <= 0 < Z.of_nat (length agents)) as Hr by lia.
      by destruct (index_lookup agents _ Hr) as (a & -> & _).
    + destruct (randFunc rnd) as [f|]; cbn [fst]; [|done].
      destruct (decide (0 <= f (Z.of_nat (length agents))
                        < Z.of_nat (length agents))) as [Hr|Hr].
      * destruct (index_lookup agents _ Hr) as (a & -> & _). simpl.
        split; [done|]. by intros [_ ?].
      * unfold index. rewrite decide_False by done. done.
Qed.

End BalancersMore.

(** ** Delegation tools *)

Module toolFacts.
Import Mem MemFacts core coreFacts mesh Spec guardFacts.

Lemma ToolName_capability {B} (t : AgentTool B) :
  ToolName t = "delegate_to_" +:+ capability t.
Proof. reflexivity. Qed.

(** The context [PrepareContext] builds keeps the trace ID. *)
Lemma PrepareContext_TraceID cd h ctx agentID ctx' h' :
  ctx_valid h ctx ->
  PrepareContext cd ctx agentID h = Ok (ctx', h') ->
  TraceID ctx' = TraceID ctx.
Proof.
  intros Hv Hrun. rewrite PrepareContext_run in Hrun by done.
  by injection Hrun as <- _.
Qed.

End toolFacts.

Section Tools.
Import Mem MemFacts core coreFacts mesh Spec guardFacts toolFacts Examples.

(** X13. The name of a delegation tool determines its capability: two
    tools have the same name exactly when they are for the same
    capability. *)
Theorem ToolName_injective {B : Type} (t1 t2 : AgentTool B) :
  ToolName t1 = ToolName t2 <-> capability t1 = capability t2.
Proof.
  rewrite !ToolName_capability. split; [|by intros ->].
  simpl. intros Heq. by simplify_eq.
Qed.

(** X14. [executeTool] runs the first tool of the list that has the called
    name, with the call's parameters, and hands on what it returns; tools
    before it are not run, and a later tool of the same name is never
    reached. When no tool has the name it runs nothing, leaves the state
    alone and returns the tool-not-found error. *)
Theorem executeTool_first_match {T St Err : Type} (name : T -> string)
    (exec : T -> Context -> string -> St ->
            outcome ((string * option Err) * St))
    (pre post : list T) (t : T) (ctx : Context) (call : ToolCall) (st : St) :
  Forall (fun u => name u <> CallName call) pre ->
  (name t = CallName call ->
   agent.executeTool name exec (pre ++ t :: post) ctx call st =
     match exec t ctx (Params call) st with
     | Ok ((out, err), st') => Ok ((out, agent.ToolError <$> err), st')
     | Panic => Panic
     end) /\
  agent.executeTool name exec pre ctx call st =
    Ok ((EmptyString, Some (agent.ErrToolNotFound (CallName call))), st).
Proof.
  intros Hpre. induction Hpre as [|u pre Hu _ [IH1 IH2]].
  - split; [|done]. intros Ht. simpl. by rewrite decide_True.
  - split.
    + intros Ht. simpl. rewrite decide_False by done. by apply IH1.
    + simpl. by rewrite decide_False.
Qed.

(** Two tools named [b]; the call for [b] runs the first one only. *)
Lemma executeTool_first_match_witness :
  agent.executeTool fst
    (fun (t : string * string) (_ : Context) (p : string) (st : unit) =>
       Ok ((t.2 +:+ p, @None unit), st))
    ([("a", "x")] ++ ("b", "y") :: [("b", "z")]) Background
    (mkToolCall "call-1" "b" "!") tt
  = Ok (("y!", None), tt) /\
  agent.executeTool fst
    (fun (t : string * string) (_ : Context) (p : string) (st : unit) =>
       Ok ((t.2 +:+ p, @None unit), st))
    [("a", "x")] Background (mkToolCall "call-1" "b" "!") tt
  = Ok ((EmptyString, Some (agent.ErrToolNotFound "b")), tt).
Proof.
  destruct (executeTool_first_match fst
              (fun (t : string * string) (_ : Context) (p : string)
                   (st : unit) => Ok ((t.2 +:+ p, @None unit), st))
              [("a", "x")] [("b", "z")] ("b", "y") Background
              (mkToolCall "call-1" "b" "!") tt) as [Hrun Hmissing].
  - constructor; [discriminate|constructor].
  - split; [by apply Hrun|exact Hmissing].
Defined.

(** X15. When the provider that the balancer selects is already in the
    caller's chain, or is new while the caller's hop budget is used up,
    [Execute] returns the guard's own error (cycle, respectively hop
    budget) unwrapped. The provider is not run and the heap is untouched,
    but the balancer has made its move: its state is the one after the
    selection. *)
Theorem Execute_refused {B : Type} `{Balancer B} {Result JsonErr RunErr : Type}
    (Output : Result -> string)
    (Unmarshal : string -> AgentToolInput + JsonErr)
    (Run : Agent -> Context -> string -> B -> heap ->
           outcome ((option Result * option RunErr) * B * heap))
    (t : AgentTool B) (ctx : Context) (params : string)
    (input : AgentToolInput) (b b1 : B) (p : Agent) (h : heap) :
  Unmarshal params = inl input ->
  Select b (providers t) = (Ok (Some p), b1) ->
  (ID p ∈ chain_of h ctx ->
   Execute Output Unmarshal Run t ctx params b h =
     Ok ((EmptyString, Some (ErrGuard ErrCycleDetected)), b1, h)) /\
  ((ID p ∉ chain_of h ctx) ->
   HopCount ctx >= maxHops (tool_cycleDetector B t) ->
   Execute Output Unmarshal Run t ctx params b h =
     Ok ((EmptyString, Some (ErrGuard ErrMaxHopsExceeded)), b1, h)).
Proof.
  intros Hin Hsel. unfold Execute. rewrite Hin, Hsel. split.
  - intros Hcycle. by rewrite (Check_in_chain _ _ _ _ Hcycle).
  - intros Hnew Hfull. rewrite (Check_not_in_chain _ _ _ _ Hnew).
    by rewrite decide_True.
Qed.

(** The caller has visited A, B, C under a budget of three; the first
    provider is B, and then D. The provider's [Run] would panic if it were
    called. *)
Lemma Execute_refused_witness :
  Execute (fun r : string => r)
    (fun s => @inl _ unit (mkAgentToolInput s EmptyString))
    (fun _ _ _ _ _ => @Panic ((option string * option unit)
                              * FirstBalancer * heap))
    (mkAgentTool "research" [mkAgent "B" "b" ["research"] []] mkFirst cd3)
    stABC.1 "task" mkFirst stABC.2
  = Ok ((EmptyString, Some (ErrGuard ErrCycleDetected)), mkFirst, stABC.2) /\
  Execute (fun r : string => r)
    (fun s => @inl _ unit (mkAgentToolInput s EmptyString))
    (fun _ _ _ _ _ => @Panic ((option string * option unit)
                              * FirstBalancer * heap))
    (mkAgentTool "research" [mkAgent "D" "d" ["research"] []] mkFirst cd3)
    stABC.1 "task" mkFirst stABC.2
  = Ok ((EmptyString, Some (ErrGuard ErrMaxHopsExceeded)), mkFirst, stABC.2).
Proof.
  split.
  - eapply (Execute_refused (B := FirstBalancer)); [reflexivity..|].
    change ("B" ∈ ["A"; "B"; "C"]). rewrite !elem_of_cons. tauto.
  - eapply (Execute_refused (B := FirstBalancer)); [reflexivity..| |].
    + change ("D" ∉ ["A"; "B"; "C"]). rewrite !not_elem_of_cons.
      repeat split; (discriminate || apply not_elem_of_nil).
    + by vm_compute.
Defined.

(** X16. When the guard accepts the selected provider, [Execute] runs that
    provider exactly once, with a context whose chain is the caller's
    chain followed by the provider's ID, whose hop count is the caller's
    plus one (Go's [+]) and whose trace ID is the caller's, and with the
    task text. The tool's result is the provider's output alone; a
    provider error comes back wrapped with the provider's name; a provider
    returning neither result nor error makes [Execute] panic. The
    caller's own context still reads the same chain. *)
Theorem Execute_delegates {B : Type} `{Balancer B}
    {Result JsonErr RunErr : Type}
    (Output : Result -> string)
    (Unmarshal : string -> AgentToolInput + JsonErr)
    (Run : Agent -> Context -> string -> B -> heap ->
           outcome ((option Result * option RunErr) * B * heap))
    (t : AgentTool B) (ctx : Context) (params : string)
    (input : AgentToolInput) (b b1 : B) (p : Agent) (h : heap) :
  Unmarshal params = inl input ->
  Select b (providers t) = (Ok (Some p), b1) ->
  Check (tool_cycleDetector B t) ctx (ID p) h = None ->
  ctx_valid h ctx ->
  exists ctx' h1,
    chain_of h1 ctx' = chain_of h ctx ++ [ID p] /\
    HopCount ctx' = GoInt.int_add (HopCount ctx) 1 /\
    TraceID ctx' = TraceID ctx /\
    chain_of h1 ctx = chain_of h ctx /\
    Execute Output Unmarshal Run t ctx params b h =
      match Run p ctx' (fullInput input) b1 h1 with
      | Panic => Panic
      | Ok ((_, Some err), b2, h2) =>
          Ok ((EmptyString, Some (ErrAgentFailed (Name p) err)), b2, h2)
      | Ok ((Some r, None), b2, h2) => Ok ((Output r, None), b2, h2)
      | Ok ((None, None), _, _) => Panic
      end.
Proof.
  intros Hin Hsel Hchk Hv. unfold Execute. rewrite Hin, Hsel, Hchk.
  destruct (PrepareContext (tool_cycleDetector B t) ctx (ID p) h)
    as [[ctx' h1]|] eqn:Hprep; [|by rewrite PrepareContext_run in Hprep].
  destruct (PrepareContext_inv _ _ _ _ _ _ Hv Hprep) as (-> & Hchain & _ & Hhop).
  exists ctx', (h ++ [chain_of h ctx ++ [ID p]]).
  split; [done|]. split; [done|].
  split; [by eapply PrepareContext_TraceID|].
  split; [unfold chain_of; by rewrite elems_app|]. done.
Qed.

(** The caller has visited A; the provider B answers with the text it was
    given. *)
Lemma Execute_delegates_witness :
  exists ctx' h1,
    chain_of h1 ctx' = chain_of stA.2 stA.1 ++ ["B"] /\
    HopCount ctx' = GoInt.int_add (HopCount stA.1) 1 /\
    TraceID ctx' = TraceID stA.1 /\
    chain_of h1 stA.1 = chain_of stA.2 stA.1 /\
    Execute (fun r : string => r)
      (fun s => @inl _ unit (mkAgentToolInput s "notes"))
      (fun _ _ text (b : FirstBalancer) (h : heap) =>
         Ok ((Some text, @None unit), b, h))
      (mkAgentTool "research" [mkAgent "B" "b" ["research"] []] mkFirst cd3)
      stA.1 "task" mkFirst stA.2
    = match
        (fun _ _ text (b : FirstBalancer) (h : heap) =>
           Ok ((Some text, @None unit), b, h))
          (mkAgent "B" "b" ["research"] []) ctx'
          (fullInput (mkAgentToolInput "task" "notes")) mkFirst h1
      with
      | Panic => Panic
      | Ok ((_, Some err), b2, h2) =>
          Ok ((EmptyString, Some (ErrAgentFailed "b" err)), b2, h2)
      | Ok ((Some r, None), b2, h2) => Ok ((r, None), b2, h2)
      | Ok ((None, None), _, _) => Panic
      end.
Proof.
  apply (Execute_delegates (B := FirstBalancer) (fun r : string => r)
           (fun s => @inl _ unit (mkAgentToolInput s "notes"))
           (fun _ _ text (b : FirstBalancer) (h : heap) =>
              Ok ((Some text, @None unit), b, h))
           (mkAgentTool "research" [mkAgent "B" "b" ["research"] []]
              mkFirst cd3)
           stA.1 "task" (mkAgentToolInput "task" "notes") mkFirst mkFirst
           (mkAgent "B" "b" ["research"] []) stA.2);
    [reflexivity..|].
  exists ["A"]. split; reflexivity.
Defined.

(** X17. A tool with no providers, under any of the package's balancers,
    fails with the no-provider error for its capability (or with the
    invalid-input error when the parameters do not parse): no provider is
    run, and the balancer's state and the heap are what they were. *)
Theorem Execute_no_provider {Result JsonErr RunErr : Type}
    (Output : Result -> string)
    (Unmarshal : string -> AgentToolInput + JsonErr)
    (Run : Agent -> Context -> string -> MeshFacade.AnyBalancer -> heap ->
           outcome ((option Result * option RunErr)
                    * MeshFacade.AnyBalancer * heap))
    (t : AgentTool MeshFacade.AnyBalancer) (ctx : Context) (params : string)
    (b : MeshFacade.AnyBalancer) (h : heap) :
  providers t = [] ->
  Execute Output Unmarshal Run t ctx params b h =
    Ok ((EmptyString,
         Some (match Unmarshal params with
               | inl _ => ErrNoProviderAvailable (capability t)
               | inr err => ErrInvalidInput err
               end)),
        b, h).
Proof.
  intros Hnone. unfold Execute. destruct (Unmarshal params) as [input|err];
    [|done].
  rewrite Hnone. by rewrite balancerMoreFacts.AnyBalancer_Select_empty.
Qed.

Lemma Execute_no_provider_witness :
  Execute (fun r : string => r)
    (fun s => @inl _ unit (mkAgentToolInput s EmptyString))
    (fun _ _ _ _ _ => @Panic ((option string * option unit)
                              * MeshFacade.AnyBalancer * heap))
    (mkAgentTool "research" []
       (MeshFacade.UseRoundRobin NewRoundRobinBalancer) cd3)
    stA.1 "task" (MeshFacade.UseRoundRobin {| counter := 5 |}) stA.2
  = Ok ((EmptyString,
         Some (match (fun s => @inl _ unit (mkAgentToolInput s EmptyString))
                       "task" with
               | inl _ => ErrNoProviderAvailable "research"
               | inr err => ErrInvalidInput err
               end)),
        MeshFacade.UseRoundRobin {| counter := 5 |}, stA.2).
Proof.
  by apply (Execute_no_provider (fun r : string => r)
              (fun s => @inl _ unit (mkAgentToolInput s EmptyString))).
Defined.

End Tools.

(** ** The mesh facade *)

Module meshFacts.
Import Mem core registry Spec SpecMore registryFacts registryMoreFacts.
Import mesh injectorFacts MeshFacade.

Lemma visit_first_ok entry : range_order_ok (visit_first entry).
Proof.
  intros entries. unfold visit_first.
  destruct (list_find (fun e => e = entry) entries) as [[i e]|] eqn:Hfind;
    [|done].
  apply list_find_Some in Hfind as (Hi & _ & _).
  symmetry. by apply delete_Permutation.
Qed.

Lemma visit_first_head entry entries :
  entry ∈ entries -> exists rest, visit_first entry entries = entry :: rest.
Proof.
  intros Hin. unfold visit_first.
  destruct (list_find_elem_of (fun e => e = entry) entries entry Hin eq_refl)
    as [[i e] Hfind].
  rewrite Hfind. apply list_find_Some in Hfind as (_ & -> & _). by eexists.
Qed.

(** [Mesh.Register] over the local registry registers the whole batch. *)
Lemma Register_all m agents :
  MeshFacade.Register m agents =
    (mkMesh
       (foldl (fun r a => (registry.Register r a).1) (mesh_registry m) agents)
       (mesh_balancer m) (mesh_cycleDetector m),
     None).
Proof.
  revert m. induction agents as [|a rest IH]; intros m.
  - by destruct m.
  - cbn [MeshFacade.Register foldl]. cbn [registry.Register fst snd].
    by rewrite IH.
Qed.

Lemma Register_all_lookup r agents agentID :
  registry.agents
    (foldl (fun r a => (registry.Register r a).1) r agents) !! agentID =
    match last_with_ID agents agentID with
    | Some a => Some a
    | None => registry.agents r !! agentID
    end.
Proof.
  unfold last_with_ID.
  induction agents as [|a agents IH] using rev_ind; [done|].
  rewrite foldl_app, filter_app. cbn [foldl registry.Register fst].
  cbn [registry.agents]. rewrite filter_cons, filter_nil.
  destruct (decide (ID a = agentID)) as [<-|Hne].
  - by rewrite lookup_insert_eq, last_snoc.
  - rewrite lookup_insert_ne by done. by rewrite app_nil_r.
Qed.

Lemma PrepareAgent_run m sched isAgentImpl a tools :
  (forall k, range_order_ok (sched k)) ->
  exists new,
    InjectTools (mesh_injector m) sched a = (new, None) /\
    capability <$> new = filter (has_provider (mesh_registry m)) (Needs a) /\
    PrepareAgent m sched isAgentImpl a tools =
      (if isAgentImpl a
       then <[ID a := default [] (tools !! ID a) ++ new]> tools
       else tools,
       None).
Proof.
  intros Hs. unfold PrepareAgent, InjectTools.
  destruct (InjectTools_range_spec (mesh_injector m) sched (Needs a) [] Hs)
    as (new & Hrun & Hcaps & _).
  exists new. rewrite Hrun. simpl. split; [done|]. split; [done|].
  by destruct (isAgentImpl a).
Qed.

(** The detector after a list of package options. *)
Lemma options_detector opts m0 :
  Forall package_option opts ->
  (exists n, mesh_cycleDetector m0 = NewCycleDetector n) ->
  exists n,
    mesh_cycleDetector (foldl (fun m opt => opt m) m0 opts)
    = NewCycleDetector n.
Proof.
  intros Hopts. revert m0.
  induction Hopts as [|o opts Ho _ IH]; intros m0 Hinit; [done|].
  cbn [foldl]. apply IH. destruct Ho as [n'|b|r]; [by exists n'|done..].
Qed.

Lemma options_without_max_hops opts m0 :
  Forall package_option opts ->
  Forall (fun o => forall n, o <> WithMaxHops n) opts ->
  mesh_cycleDetector (foldl (fun m opt => opt m) m0 opts)
  = mesh_cycleDetector m0.
Proof.
  intros Hopts. revert m0.
  induction Hopts as [|o opts Ho _ IH]; intros m0 Hno; [done|].
  apply Forall_cons in Hno as [Ho' Hno].
  cbn [foldl]. rewrite IH by done.
  destruct Ho as [n'|b|r]; [by destruct (Ho' n')|done..].
Qed.

Lemma ensureTraceID_facts ctx uuid :
  TraceID (ensureTraceID ctx uuid)
    = (if decide (TraceID ctx = EmptyString) then uuid else TraceID ctx) /\
  CallChain (ensureTraceID ctx uuid) = CallChain ctx /\
  HopCount (ensureTraceID ctx uuid) = HopCount ctx.
Proof.
  unfold ensureTraceID. by destruct (decide (TraceID ctx = EmptyString)).
Qed.

End meshFacts.

Section MeshMore.
Import Mem core registry Spec SpecMore registryFacts registryMoreFacts.
Import mesh injectorFacts MeshFacade meshFacts Examples.

(** X18. [Mesh.Register] with a batch of agents never fails over the local
    registry and registers them all, later agents replacing earlier ones of
    the same ID: afterwards [GetAgent] returns, for an ID, the last agent of
    the batch with that ID, and what it returned before for an ID the batch
    does not mention. The balancer and the detector are not touched. *)
Theorem Mesh_Register_batch (m : Mesh) (agents : list Agent)
    (agentID : string) :
  (MeshFacade.Register m agents).2 = None /\
  GetAgent (MeshFacade.Register m agents).1 agentID =
    match last_with_ID agents agentID with
    | Some a => (Some a, None)
    | None => GetAgent m agentID
    end /\
  mesh_balancer (MeshFacade.Register m agents).1 = mesh_balancer m /\
  mesh_cycleDetector (MeshFacade.Register m agents).1 = mesh_cycleDetector m.
Proof.
  rewrite Register_all. cbn [fst snd mesh_balancer mesh_cycleDetector].
  split; [done|]. split; [|done].
  unfold GetAgent, Get. cbn [mesh_registry]. rewrite Register_all_lookup.
  by destruct (last_with_ID agents agentID).
Qed.

(** X19. A mesh built by [New] from the package's options, in any number
    and order, has a detector made by [NewCycleDetector], hence a hop
    budget of at least one; with no [WithMaxHops] option it is the default
    of 10. *)
Theorem New_hop_budget (opts : list MeshFacade.Option) :
  Forall package_option opts ->
  (exists n, mesh_cycleDetector (New opts) = NewCycleDetector n) /\
  0 < MaxHops (mesh_cycleDetector (New opts)) /\
  (Forall (fun o => forall n, o <> WithMaxHops n) opts ->
   MaxHops (mesh_cycleDetector (New opts)) = 10).
Proof.
  intros Hopts. unfold New.
  destruct (options_detector opts
              (mkMesh NewLocal (UseRoundRobin NewRoundRobinBalancer)
                 (NewCycleDetector DefaultMaxHops)) Hopts) as [n Hn];
    [by exists DefaultMaxHops|].
  split; [by exists n|]. split.
  - rewrite Hn. unfold MaxHops, NewCycleDetector, DefaultMaxHops. simpl.
    destruct (decide (n <= 0)); lia.
  - intros Hno. by rewrite options_without_max_hops.
Qed.

Lemma New_hop_budget_witness :
  (exists n,
      mesh_cycleDetector
        (New [WithMaxHops 0; WithBalancer (UseFirst NewFirstBalancer)])
      = NewCycleDetector n) /\
  0 < MaxHops (mesh_cycleDetector
                 (New [WithMaxHops 0; WithBalancer (UseFirst NewFirstBalancer)])) /\
  (Forall (fun o => forall n, o <> WithMaxHops n)
     [WithMaxHops 0; WithBalancer (UseFirst NewFirstBalancer)] ->
   MaxHops (mesh_cycleDetector
              (New [WithMaxHops 0; WithBalancer (UseFirst NewFirstBalancer)]))
   = 10).
Proof.
  apply (New_hop_budget
           [WithMaxHops 0; WithBalancer (UseFirst NewFirstBalancer)]).
  repeat constructor.
Defined.

(** X20. [RunAgent] for an ID that is not registered returns the
    registry's not-found error and does nothing else: no agent is prepared
    or run, and the mesh, the agents' tools and the heap are what they
    were. For a registered ID it prepares that agent and runs it, once,
    with the caller's input and a context that has the caller's chain and
    hop count ([RunAgent] itself adds no hop) and a trace ID: the caller's
    if there is one, the fresh one otherwise. *)
Theorem RunAgent_lookup {Result RunErr : Type}
    (AgentRun : Agent -> Context -> string -> World ->
                outcome ((option Result * option RunErr) * World))
    (isAgentImpl : Agent -> bool) (uuid : string)
    (sched : nat -> range_order) (ctx : Context) (agentID input : string)
    (w : World) :
  (forall k, range_order_ok (sched k)) ->
  match agents (mesh_registry (w_mesh w)) !! agentID with
  | None =>
      RunAgent AgentRun isAgentImpl uuid sched ctx agentID input w =
        Ok ((None, Some (FromRegistry ErrAgentNotFound)), w)
  | Some a =>
      exists ctx' new,
        TraceID ctx'
          = (if decide (TraceID ctx = EmptyString) then uuid else TraceID ctx) /\
        CallChain ctx' = CallChain ctx /\
        HopCount ctx' = HopCount ctx /\
        capability <$> new
          = filter (has_provider (mesh_registry (w_mesh w))) (Needs a) /\
        RunAgent AgentRun isAgentImpl uuid sched ctx agentID input w =
          match
            AgentRun a ctx' input
              (mkWorld (w_mesh w)
                 (if isAgentImpl a
                  then <[ID a := default [] (w_tools w !! ID a) ++ new]>
                         (w_tools w)
                  else w_tools w)
                 (w_heap w))
          with
          | Ok ((result, err), w') => Ok ((result, FromAgent <$> err), w')
          | Panic => Panic
          end
  end.
Proof.
  intros Hs. unfold RunAgent, GetAgent, Get.
  destruct (agents (mesh_registry (w_mesh w)) !! agentID) as [a|] eqn:Hget;
    [|done].
  destruct (PrepareAgent_run (w_mesh w) sched isAgentImpl a (w_tools w) Hs)
    as (new & _ & Hcaps & Hprep).
  destruct (ensureTraceID_facts ctx uuid) as (Htrace & Hchain & Hhop).
  exists (ensureTraceID ctx uuid), new.
  split; [done|]. split; [done|]. split; [done|]. split; [done|].
  unfold prepareAndRun. by rewrite Hprep.
Qed.

(** The registry holds the researcher, the writer and the coder: the ID
    [nobody] is not found, the ID [writer] is prepared and run. *)
Lemma RunAgent_lookup_witness :
  RunAgent (fun _ _ _ w => Ok ((Some "done", @None unit), w))
    (fun _ => true) "trace-1" (fun _ => id) Background "nobody" "hello"
    (mkWorld (MeshFacade.Register (New []) [researcher; writer; coder]).1
       ∅ [])
  = Ok ((None, Some (FromRegistry ErrAgentNotFound)),
        mkWorld (MeshFacade.Register (New []) [researcher; writer; coder]).1
          ∅ []) /\
  exists ctx' new,
    TraceID ctx'
      = (if decide (TraceID Background = EmptyString)
         then "trace-1" else TraceID Background) /\
    CallChain ctx' = CallChain Background /\
    HopCount ctx' = HopCount Background /\
    capability <$> new
      = filter (has_provider
                  (mesh_registry
                     (MeshFacade.Register (New [])
                        [researcher; writer; coder]).1))
          (Needs writer) /\
    RunAgent (fun _ _ _ w => Ok ((Some "done", @None unit), w))
      (fun _ => true) "trace-1" (fun _ => id) Background "writer" "hello"
      (mkWorld (MeshFacade.Register (New []) [researcher; writer; coder]).1
         ∅ [])
    = match
        (fun _ _ _ w => Ok ((Some "done", @None unit), w))
          writer ctx' "hello"
          (mkWorld
             (MeshFacade.Register (New []) [researcher; writer; coder]).1
             (if (fun _ => true) writer
              then <[ID writer :=
                       default [] ((∅ : tool_store) !! ID writer) ++ new]> ∅
              else ∅)
             [])
      with
      | Ok ((result, err), w') => Ok ((result, FromAgent <$> err), w')
      | Panic => Panic
      end.
Proof.
  split.
  - exact (RunAgent_lookup
             (fun _ _ _ w => Ok ((Some "done", @None unit), w))
             (fun _ => true) "trace-1" (fun _ => id) Background
             "nobody" "hello"
             (mkWorld
                (MeshFacade.Register (New []) [researcher; writer; coder]).1
                ∅ [])
             (fun k entries => reflexivity _)).
  - exact (RunAgent_lookup
             (fun _ _ _ w => Ok ((Some "done", @None unit), w))
             (fun _ => true) "trace-1" (fun _ => id) Background
             "writer" "hello"
             (mkWorld
                (MeshFacade.Register (New []) [researcher; writer; coder]).1
                ∅ [])
             (fun k entries => reflexivity _)).
Defined.



(** X22. Which agent [Mesh.Run] runs is up to the map iteration: for every
    registered agent there is a legal iteration order under which
    [Mesh.Run] prepares and runs that agent. *)
Theorem Run_any_registered {Result RunErr : Type}
    (AgentRun : Agent -> Context -> string -> World ->
                outcome ((option Result * option RunErr) * World))
    (isAgentImpl : Agent -> bool) (uuid : string)
    (sched : nat -> range_order) (ctx : Context) (task : string) (w : World)
    (a : Agent) :
  registered (mesh_registry (w_mesh w)) a ->
  exists ro,
    range_order_ok ro /\
    MeshFacade.Run AgentRun isAgentImpl uuid ro sched ctx task w =
      prepareAndRun AgentRun isAgentImpl sched (ensureTraceID ctx uuid)
        a task w.
Proof.
  intros [k Hk]. exists (visit_first (k, a)).
  split; [apply visit_first_ok|].
  unfold MeshFacade.Run, ListAgents, List. cbn [fst snd].
  destruct (visit_first_head (k, a)
              (map_to_list (agents (mesh_registry (w_mesh w)))))
    as [rest Hhead]; [by apply elem_of_map_to_list|].
  rewrite Hhead. cbn [List_range]. rewrite List_range_values. done.
Qed.

(** Over the registry of [history3], an order under which the writer is
    the one that runs. *)
Lemma Run_any_registered_witness :
  exists ro,
    range_order_ok ro /\
    MeshFacade.Run
      (fun _ _ _ _ => @Panic ((option string * option unit) * World))
      (fun _ => true) "trace-1" ro (fun _ => id) Background "hello"
      (mkWorld (MeshFacade.Register (New []) [researcher; writer; coder]).1
         ∅ [])
    = prepareAndRun
        (fun _ _ _ _ => @Panic ((option string * option unit) * World))
        (fun _ => true) (fun _ => id) (ensureTraceID Background "trace-1")
        writer "hello"
        (mkWorld (MeshFacade.Register (New []) [researcher; writer; coder]).1
           ∅ []).
Proof.
  apply (Run_any_registered
           (fun _ _ _ _ => @Panic ((option string * option unit) * World))
           (fun _ => true) "trace-1" (fun _ => id) Background "hello"
           (mkWorld
              (MeshFacade.Register (New []) [researcher; writer; coder]).1
              ∅ [])
           writer).
  exists "writer". by vm_compute.
Defined.

(** X23. [PrepareAgent] adds and never replaces: preparing the same agent
    twice, with no registry write in between, leaves it with its former
    tools followed by two runs of delegation tools for the same
    capabilities, so every delegation tool is there twice. *)
Theorem PrepareAgent_twice (m : Mesh) (sched1 sched2 : nat -> range_order)
    (isAgentImpl : Agent -> bool) (a : Agent) (tools : tool_store) :
  (forall k, range_order_ok (sched1 k)) ->
  (forall k, range_order_ok (sched2 k)) ->
  isAgentImpl a = true ->
  exists new1 new2,
    capability <$> new1 = filter (has_provider (mesh_registry m)) (Needs a) /\
    capability <$> new2 = filter (has_provider (mesh_registry m)) (Needs a) /\
    PrepareAgent m sched2 isAgentImpl a
      (PrepareAgent m sched1 isAgentImpl a tools).1
    = (<[ID a := default [] (tools !! ID a) ++ new1 ++ new2]> tools, None).
Proof.
  intros Hs1 Hs2 Himpl.
  destruct (PrepareAgent_run m sched1 isAgentImpl a tools Hs1)
    as (new1 & _ & Hcaps1 & Hprep1).
  rewrite Hprep1, Himpl. cbn [fst].
  destruct (PrepareAgent_run m sched2 isAgentImpl a
              (<[ID a := default [] (tools !! ID a) ++ new1]> tools) Hs2)
    as (new2 & _ & Hcaps2 & Hprep2).
  exists new1, new2. split; [done|]. split; [done|].
  rewrite Hprep2, Himpl, lookup_insert_eq. simpl.
  by rewrite insert_insert_eq, <- app_assoc.
Qed.

Lemma PrepareAgent_twice_witness :
  exists new1 new2,
    capability <$> new1
      = filter (has_provider
                  (mesh_registry
                     (MeshFacade.Register (New []) [researcher; writer]).1))
          (Needs writer) /\
    capability <$> new2
      = filter (has_provider
                  (mesh_registry
                     (MeshFacade.Register (New []) [researcher; writer]).1))
          (Needs writer) /\
    PrepareAgent (MeshFacade.Register (New []) [researcher; writer]).1
      (fun _ => reverse) (fun _ => true) writer
      (PrepareAgent (MeshFacade.Register (New []) [researcher; writer]).1
         (fun _ => id) (fun _ => true) writer ∅).1
    = (<[ID writer := default [] ((∅ : tool_store) !! ID writer)
                        ++ new1 ++ new2]> ∅, None).
Proof.
  apply (PrepareAgent_twice
           (MeshFacade.Register (New []) [researcher; writer]).1
           (fun _ => id) (fun _ => reverse) (fun _ => true) writer ∅).
  - by intros k entries.
  - intros k entries. apply reverse_Permutation.
  - reflexivity.
Defined.

End MeshMore.
